(** * Thread publication of the Bluesky plugin for Obsidian

    A shallow embedding of [src/bluesky.ts] (class [BlueskyBot]) and of the
    state-changing methods of [src/views/BlueskyTab.ts] (class [BlueskyTab]),
    followed by the properties of the thread-publication protocol.

    The remote service, the [@atproto/api] agent and the host's notices are
    external collaborators: their answers are given by a [Remote] record over
    an abstract world, and everything the plugin does to them is recorded in
    a trace of [Event]s, each remote call together with its answer. *)

From Stdlib Require Import String Ascii NArith Arith Bool Lia List.
Import ListNotations.

Set Implicit Arguments.

(** ** JavaScript strings *)

(** A JavaScript string is a sequence of UTF-16 code units; [length] and
    [slice] count code units. *)
Definition code_unit := N.
Definition jsstring := list code_unit.

(** String literals of the source, written as Rocq strings. *)
Definition js (s : string) : jsstring :=
  map N_of_ascii (list_ascii_of_string s).

Definition jsstring_eq_dec (a b : jsstring) : {a = b} + {a <> b} :=
  list_eq_dec N.eq_dec a b.

(** Truthiness of a string: every string but the empty one. *)
Definition truthy (s : jsstring) : bool :=
  match s with
  | [] => false
  | _ :: _ => true
  end.

(** [s.slice(0, n)] for a non-negative [n]. *)
Definition slice0 (n : nat) (s : jsstring) : jsstring := firstn n s.

(** WhiteSpace and LineTerminator code units of ECMAScript, the ones
    [String.prototype.trim] strips. *)
Definition is_white_space (c : code_unit) : bool :=
  ((9 <=? c) && (c <=? 13) || (c =? 32) || (c =? 160) || (c =? 5760)
   || (8192 <=? c) && (c <=? 8202) || (c =? 8232) || (c =? 8233)
   || (c =? 8239) || (c =? 8287) || (c =? 12288) || (c =? 65279))%N.

Fixpoint trimStart (s : jsstring) : jsstring :=
  match s with
  | [] => []
  | c :: r => if is_white_space c then trimStart r else s
  end.

Definition trimEnd (s : jsstring) : jsstring := rev (trimStart (rev s)).

Definition trim (s : jsstring) : jsstring := trimEnd (trimStart s).

(** ** Data model *)

(** [{ uri, cid }]: the reference the remote service returns for a stored
    record. *)
Record StrongRef := { uri : jsstring; cid : jsstring }.

(** [ThreadPost.reply].  [root] is written [rootPost!] in the source: the
    assertion is erased at run time, so the field holds whatever [rootPost]
    holds, [null] included. *)
Record ReplyRef := { root : option StrongRef; parent : StrongRef }.

(** [interface ThreadPost]. *)
Record ThreadPost := { text : jsstring; reply : option ReplyRef }.

(** Rich-text facets of [@atproto/api]: a byte range and its features. *)
Inductive FacetFeature :=
| Mention (did : jsstring)
| Link (link_uri : jsstring)
| Tag (tag : jsstring).

Record Facet :=
  { byteStart : nat; byteEnd : nat; features : list FacetFeature }.

(** The session of the agent; the plugin reads its [did] only. *)
Record Session := { session_did : jsstring }.

(** A thrown value; the plugin reads its [message] only. *)
Record Error := { message : jsstring }.

(** How an awaited promise settles. *)
Inductive Outcome (A : Type) :=
| Resolved (a : A)
| Rejected (e : Error).
Arguments Resolved {A} a.
Arguments Rejected {A} e.

(** Argument of [agent.post]. *)
Record PostArgs :=
  { post_text : jsstring;
    post_reply : option ReplyRef;
    post_facets : option (list Facet) }.

(** Argument of [agent.com.atproto.repo.createRecord]. *)
Record CreateRecordArgs :=
  { repo : jsstring;
    collection : jsstring;
    record_text : jsstring;
    record_createdAt : jsstring }.

(** [BlueskyPluginSettings] of [main.ts]. *)
Record BlueskyPluginSettings :=
  { blueskyIdentifier : jsstring; blueskyAppPassword : jsstring }.

Definition INITIAL_BLUESKY_SETTINGS : BlueskyPluginSettings :=
  {| blueskyIdentifier := js ""; blueskyAppPassword := js "" |}.

(** State of a [BlueskyTab]: [posts] is a JavaScript array, whose slots may be
    holes ([None]) once an index past the end has been assigned. *)
Record TabState := { posts : list (option jsstring); isPosting : bool }.

(** Everything observable the plugin does, in order. *)
Inductive Event :=
| EvNotice (msg : jsstring)
| EvConsoleError (label : jsstring) (e : Error)
| EvAgentLogin (identifier password : jsstring) (res : Outcome Session)
| EvDetectFacets (txt : jsstring) (res : Outcome (option (list Facet)))
| EvAgentPost (args : PostArgs) (res : Outcome StrongRef)
| EvCreateRecord (args : CreateRecordArgs) (res : Outcome unit)
| EvDisplay (shown : TabState).

(** The [AtpAgent] object, as far as the plugin observes it. *)
Record Agent := { session : option Session }.

(** The external collaborators over a world [W]: each call takes the world
    and gives the next world and how the call settles. *)
Record Remote (W : Type) :=
  { remote_login : W -> jsstring -> jsstring -> W * Outcome Session;
    remote_detectFacets :
      W -> option Session -> jsstring -> W * Outcome (option (list Facet));
    remote_post : W -> option Session -> PostArgs -> W * Outcome StrongRef;
    remote_createRecord : W -> CreateRecordArgs -> W * Outcome unit;
    remote_now : W -> jsstring }.

(** ** Traces *)

(** The calls of [agent.post] in a trace, with their answers. *)
Fixpoint post_calls (tr : list Event) : list (PostArgs * Outcome StrongRef) :=
  match tr with
  | [] => []
  | EvAgentPost a r :: tr' => (a, r) :: post_calls tr'
  | _ :: tr' => post_calls tr'
  end.

(** The calls of [createRecord] in a trace. *)
Fixpoint record_calls (tr : list Event)
  : list (CreateRecordArgs * Outcome unit) :=
  match tr with
  | [] => []
  | EvCreateRecord a r :: tr' => (a, r) :: record_calls tr'
  | _ :: tr' => record_calls tr'
  end.

(** The calls of [rt.detectFacets] in a trace. *)
Fixpoint detect_calls (tr : list Event)
  : list (jsstring * Outcome (option (list Facet))) :=
  match tr with
  | [] => []
  | EvDetectFacets t r :: tr' => (t, r) :: detect_calls tr'
  | _ :: tr' => detect_calls tr'
  end.

(** The calls of [agent.login] in a trace. *)
Fixpoint login_calls (tr : list Event) : list (jsstring * jsstring) :=
  match tr with
  | [] => []
  | EvAgentLogin i p _ :: tr' => (i, p) :: login_calls tr'
  | _ :: tr' => login_calls tr'
  end.

(** The notices of a trace. *)
Fixpoint notices (tr : list Event) : list jsstring :=
  match tr with
  | [] => []
  | EvNotice m :: tr' => m :: notices tr'
  | _ :: tr' => notices tr'
  end.

(** Texts sent to the remote service for storage, by either call. *)
Fixpoint submitted_texts (tr : list Event) : list jsstring :=
  match tr with
  | [] => []
  | EvAgentPost a _ :: tr' => post_text a :: submitted_texts tr'
  | EvCreateRecord a _ :: tr' => record_text a :: submitted_texts tr'
  | _ :: tr' => submitted_texts tr'
  end.

(** A trace with no call to the remote service at all. *)
Definition is_remote_call (e : Event) : bool :=
  match e with
  | EvAgentLogin _ _ _ | EvDetectFacets _ _ | EvAgentPost _ _
  | EvCreateRecord _ _ => true
  | EvNotice _ | EvConsoleError _ _ | EvDisplay _ => false
  end.

Definition remote_calls (tr : list Event) : list Event :=
  filter is_remote_call tr.

(** ** The plugin *)

(** [post.reply] as [createThread] leaves it: assigned only
    [if (lastPost)]. *)
Definition reply_of (rootPost lastPost : option StrongRef)
  : option ReplyRef :=
  match lastPost with
  | Some lp => Some {| root := rootPost; parent := lp |}
  | None => None
  end.

(** [rootPost] after [if (!rootPost) rootPost = { uri, cid }]. *)
Definition root_after (rootPost : option StrongRef) (result : StrongRef)
  : option StrongRef :=
  match rootPost with
  | None => Some {| uri := uri result; cid := cid result |}
  | Some _ => rootPost
  end.

Section Plugin.

Variable W : Type.
Variable R : Remote W.

(** What an [async] method runs in: the world and the bot's agent. *)
Record BotState := { world : W; agent : Agent }.

(** An [async] computation: from a state to how it settles, the state it
    leaves and the events it caused. *)
Definition M (A : Type) : Type :=
  BotState -> Outcome A * BotState * list Event.

Definition ret {A} (a : A) : M A := fun s => (Resolved a, s, []).

Definition throw {A} (e : Error) : M A := fun s => (Rejected e, s, []).

Definition bind {A B} (m : M A) (k : A -> M B) : M B :=
  fun s =>
    match m s with
    | (Resolved a, s1, t1) =>
        let '(r, s2, t2) := k a s1 in (r, s2, t1 ++ t2)
    | (Rejected e, s1, t1) => (Rejected e, s1, t1)
    end.

(** [try { m } catch (error) { h error }]. *)
Definition try_catch {A} (m : M A) (h : Error -> M A) : M A :=
  fun s =>
    match m s with
    | (Resolved a, s1, t1) => (Resolved a, s1, t1)
    | (Rejected e, s1, t1) =>
        let '(r, s2, t2) := h e s1 in (r, s2, t1 ++ t2)
    end.

Definition emit (e : Event) : M unit := fun s => (Resolved tt, s, [e]).

Definition Notice (msg : jsstring) : M unit := emit (EvNotice msg).

Definition console_error (label : jsstring) (e : Error) : M unit :=
  emit (EvConsoleError label e).

Local Notation "x <- m ;; k" := (bind m (fun x => k))
  (at level 61, m at next level, right associativity).
Local Notation "m ;;; k" := (bind m (fun _ => k))
  (at level 61, right associativity).

(** [await this.agent.login({ identifier, password })] of [AtpAgent]: the
    agent keeps the session the service gives; when the service refuses,
    the agent drops the session it had ([this.session = undefined] in the
    [catch] of [AtpAgent.login]) and the error is thrown on. *)
Definition agent_login (identifier password : jsstring) : M unit :=
  fun s =>
    let '(w', r) := remote_login R (world s) identifier password in
    let ev := EvAgentLogin identifier password r in
    match r with
    | Resolved sess =>
        (Resolved tt, {| world := w'; agent := {| session := Some sess |} |},
         [ev])
    | Rejected e =>
        (Rejected e, {| world := w'; agent := {| session := None |} |}, [ev])
    end.

(** [await rt.detectFacets(this.agent)], giving [rt.facets]. *)
Definition detectFacets (txt : jsstring) : M (option (list Facet)) :=
  fun s =>
    let '(w', r) :=
      remote_detectFacets R (world s) (session (agent s)) txt in
    (r, {| world := w'; agent := agent s |}, [EvDetectFacets txt r]).

(** [await this.agent.post(args)]. *)
Definition agent_post (args : PostArgs) : M StrongRef :=
  fun s =>
    let '(w', r) := remote_post R (world s) (session (agent s)) args in
    (r, {| world := w'; agent := agent s |}, [EvAgentPost args r]).

(** [await this.agent.com.atproto.repo.createRecord(args)]. *)
Definition createRecord (args : CreateRecordArgs) : M unit :=
  fun s =>
    let '(w', r) := remote_createRecord R (world s) args in
    (r, {| world := w'; agent := agent s |}, [EvCreateRecord args r]).

Definition get_session : M (option Session) :=
  fun s => (Resolved (session (agent s)), s, []).

(** [new Date().toISOString()]. *)
Definition now : M jsstring :=
  fun s => (Resolved (remote_now R (world s)), s, []).

(** *** [BlueskyBot] *)

Definition missing_credentials : Error :=
  {| message :=
      js "Missing Bluesky credentials - please configure them in settings" |}.

Definition not_logged_in : Error := {| message := js "Not logged in" |}.

Definition not_logged_in_notice : jsstring :=
  js "Not logged in. Go to the Bluesky plugin settings to login.".

Definition posted_notice : jsstring := js "Successfully posted to Bluesky!".

Definition login (settings : BlueskyPluginSettings) : M unit :=
  try_catch
    (let blueskyIdentifier := blueskyIdentifier settings in
     let blueskyAppPassword := blueskyAppPassword settings in
     (if negb (truthy blueskyIdentifier) || negb (truthy blueskyAppPassword)
      then
        Notice not_logged_in_notice ;;;
        throw missing_credentials
      else ret tt) ;;;
     agent_login blueskyIdentifier blueskyAppPassword)
    (fun error =>
       console_error (js "Failed to login:") error ;;;
       throw error).

(** [this.agent.session?.did], [undefined] when there is no session. *)
Definition session_did_opt (s : option Session) : option jsstring :=
  match s with
  | Some sess => Some (session_did sess)
  | None => None
  end.

Definition createPost (txt : jsstring) : M unit :=
  try_catch
    (sess <- get_session ;;
     match session_did_opt sess with
     | Some ((_ :: _) as did) =>
         createdAt <- now ;;
         createRecord {| repo := did;
                         collection := js "app.bsky.feed.post";
                         record_text := txt;
                         record_createdAt := createdAt |} ;;;
         Notice posted_notice
     | _ => throw not_logged_in
     end)
    (fun error =>
       console_error (js "Failed to post:") error ;;;
       Notice (js "Failed to post: " ++ message error) ;;;
       throw error).

(** The [for (const text of posts)] loop of [createThread], with its two
    variables [rootPost] and [lastPost]. *)
Fixpoint createThread_loop (posts : list jsstring)
    (rootPost lastPost : option StrongRef) : M unit :=
  match posts with
  | [] => ret tt
  | txt :: rest =>
      rt_facets <- detectFacets txt ;;
      let post := {| text := txt; reply := reply_of rootPost lastPost |} in
      result <- agent_post {| post_text := text post;
                              post_reply := reply post;
                              post_facets := rt_facets |} ;;
      createThread_loop rest (root_after rootPost result)
        (Some {| uri := uri result; cid := cid result |})
  end.

Definition createThread (posts : list jsstring) : M unit :=
  match posts with
  | [] => ret tt
  | _ :: _ =>
      createThread_loop posts None None ;;;
      Notice posted_notice
  end.

(** *** [BlueskyTab] *)

Definition MAX_CHARS : nat := 300.

(** [this.posts] of a fresh tab: [['']]. *)
Definition initial_tab : TabState :=
  {| posts := [Some (js "")]; isPosting := false |}.

(** [a[i] = v] on a JavaScript array: inside the array the slot is
    replaced, past its end the array grows, with holes up to [i]. *)
Definition array_set (i : nat) (v : jsstring) (a : list (option jsstring))
  : list (option jsstring) :=
  if i <? length a
  then firstn i a ++ Some v :: skipn (S i) a
  else a ++ repeat None (i - length a) ++ [Some v].

(** [a.splice(i, 1)] for a non-negative [i]. *)
Definition splice1 (i : nat) (a : list (option jsstring))
  : list (option jsstring) :=
  firstn i a ++ skipn (S i) a.

(** [a.filter(post => post.trim())]: holes are skipped, a string is kept
    when its trimmed text is truthy. *)
Fixpoint filter_trim (a : list (option jsstring)) : list jsstring :=
  match a with
  | [] => []
  | Some post :: r =>
      if truthy (trim post) then post :: filter_trim r else filter_trim r
  | None :: r => filter_trim r
  end.

(** [!this.posts[0]?.trim()], the state of the add-to-thread button. *)
Definition addThreadBtn_disabled (a : list (option jsstring)) : bool :=
  match a with
  | Some p :: _ => negb (truthy (trim p))
  | _ => true
  end.

(** [this.posts[0]?.trim().length > 0]. *)
Definition hasValidFirstPost (a : list (option jsstring)) : bool :=
  match a with
  | Some p :: _ => 0 <? length (trim p)
  | _ => false
  end.

(** [this.posts.some(post => post.trim())]. *)
Definition hasAnyContent (a : list (option jsstring)) : bool :=
  existsb (fun o => match o with
                    | Some p => truthy (trim p)
                    | None => false
                    end) a.

Definition postButton_disabled (t : TabState) : bool :=
  isPosting t || negb (hasValidFirstPost (posts t))
  || negb (hasAnyContent (posts t)).

(** [handlePostChange(index, event)], [value] being [event.target.value]. *)
Definition handlePostChange (index : nat) (value : jsstring) (t : TabState)
  : TabState :=
  let limitedText := slice0 MAX_CHARS value in
  {| posts := array_set index limitedText (posts t);
     isPosting := isPosting t |}.

Definition addPost (t : TabState) : TabState :=
  {| posts := posts t ++ [Some (js "")]; isPosting := isPosting t |}.

Definition removePost (index : nat) (t : TabState) : TabState :=
  if length (posts t) =? 1 then t
  else {| posts := splice1 index (posts t); isPosting := isPosting t |}.

Definition display (t : TabState) : M unit := emit (EvDisplay t).

(** What [publishContent] awaits inside its [try] block. *)
Definition publish_valid (settings : BlueskyPluginSettings)
    (validPosts : list jsstring) : M unit :=
  login settings ;;;
  match validPosts with
  | [only] => createPost only
  | _ => createThread validPosts
  end.

(** [publishContent()], run without other handlers of the tab in between;
    it gives the state the tab is left in. *)
Definition publishContent (settings : BlueskyPluginSettings) (t : TabState)
  : M TabState :=
  if isPosting t then ret t
  else
    let validPosts := filter_trim (posts t) in
    match validPosts with
    | [] => ret t
    | _ :: _ =>
        t1 <- try_catch
                (let t0 := {| posts := posts t; isPosting := true |} in
                 display t0 ;;;
                 publish_valid settings validPosts ;;;
                 ret {| posts := [Some (js "")]; isPosting := true |})
                (fun error =>
                   console_error (js "Failed to post:") error ;;;
                   ret {| posts := posts t; isPosting := true |}) ;;
        let t2 := {| posts := posts t1; isPosting := false |} in
        display t2 ;;;
        ret t2
    end.

(** [createBlueskyPost(plugin, text)], behind the command of [main.ts] that
    posts the selected text.  It works on a [BlueskyBot] of its own, whose
    agent starts without a session and is dropped at the end. *)
Definition createBlueskyPost (settings : BlueskyPluginSettings)
    (txt : jsstring) : M unit :=
  fun s =>
    let bot := {| world := world s; agent := {| session := None |} |} in
    let '(r, s', tr) :=
      try_catch
        (login settings ;;; createPost txt)
        (fun error =>
           console_error (js "Error posting to Bluesky:") error ;;;
           throw error) bot in
    (r, {| world := world s'; agent := agent s |}, tr).

(** What the user can do to a tab. *)
Inductive TabAction :=
| DoChange (index : nat) (value : jsstring)
| DoAdd
| DoRemove (index : nat)
| DoPublish (settings : BlueskyPluginSettings).

Definition tab_step (a : TabAction) (c : TabState * BotState)
  : TabState * BotState :=
  let '(t, s) := c in
  match a with
  | DoChange index value => (handlePostChange index value t, s)
  | DoAdd => (addPost t, s)
  | DoRemove index => (removePost index t, s)
  | DoPublish settings =>
      match publishContent settings t s with
      | (Resolved t', s', _) => (t', s')
      | (Rejected _, s', _) => (t, s')
      end
  end.

Definition tab_run (acts : list TabAction) (c : TabState * BotState)
  : TabState * BotState :=
  fold_left (fun c a => tab_step a c) acts c.

End Plugin.

Arguments ret {W A} a _.
Arguments throw {W A} e _.

Unset Implicit Arguments.

(** ** Runs of the thread loop *)

(** The argument [createThread] builds for [agent.post]. *)
Definition thread_args (txt : jsstring) (rootPost lastPost : option StrongRef)
    (fs : option (list Facet)) : PostArgs :=
  {| post_text := txt;
     post_reply := reply_of rootPost lastPost;
     post_facets := fs |}.

(** The traces the loop of [createThread] can leave on its segments, started
    with [rootPost] and [lastPost], and how it settles: an iteration stops at
    a rejected detection, stops at a rejected submission, or goes on with the
    reference the submission gave. *)
Inductive thread_run :
  list jsstring -> option StrongRef -> option StrongRef ->
  Outcome unit -> list Event -> Prop :=
| run_done rootPost lastPost :
    thread_run [] rootPost lastPost (Resolved tt) []
| run_detect_rejected txt rest rootPost lastPost e :
    thread_run (txt :: rest) rootPost lastPost (Rejected e)
      [EvDetectFacets txt (Rejected e)]
| run_post_rejected txt rest rootPost lastPost fs e :
    thread_run (txt :: rest) rootPost lastPost (Rejected e)
      [EvDetectFacets txt (Resolved fs);
       EvAgentPost (thread_args txt rootPost lastPost fs) (Rejected e)]
| run_next txt rest rootPost lastPost fs ref r tr :
    thread_run rest (root_after rootPost ref) (Some ref) r tr ->
    thread_run (txt :: rest) rootPost lastPost r
      (EvDetectFacets txt (Resolved fs)
       :: EvAgentPost (thread_args txt rootPost lastPost fs) (Resolved ref)
       :: tr).

(** [l1] is [l2] with some elements left out, the order kept. *)
Inductive Subseq {A : Type} : list A -> list A -> Prop :=
| subseq_nil : Subseq [] []
| subseq_skip x l1 l2 : Subseq l1 l2 -> Subseq l1 (x :: l2)
| subseq_keep x l1 l2 : Subseq l1 l2 -> Subseq (x :: l1) (x :: l2).

(** A string with nothing but white space in it. *)
Definition blank (s : jsstring) : Prop :=
  Forall (fun c => is_white_space c = true) s.

(** The reading of "a failure of facet detection does not abort
    publication": in the run of [createThread] on [segs], a segment whose
    detection is rejected is submitted all the same, with no facet. *)
Definition detection_failure_tolerated {W} (R : Remote W)
    (segs : list jsstring) (s : BotState W) : Prop :=
  let tr := snd (createThread R segs s) in
  forall k txt e,
    nth_error (detect_calls tr) k = Some (txt, Rejected e) ->
    exists a res,
      nth_error (post_calls tr) k = Some (a, res) /\
      post_text a = txt /\
      (post_facets a = None \/ post_facets a = Some []).

(** The reading of "the failure surfaced to the caller reports how many
    segments succeeded": the count can be read off what [createThread] hands
    back, its outcome and the notices it showed. *)
Definition failure_reports_count {W} (R : Remote W) : Prop :=
  exists count_of : Outcome unit -> list jsstring -> nat,
    forall segs s r s' tr k a e,
      createThread R segs s = (r, s', tr) ->
      nth_error (post_calls tr) k = Some (a, Rejected e) ->
      count_of r (notices tr) = k.

(** The reading of "the publishing core never submits more than 300
    characters": whatever [createPost] or [createThread] is called with, the
    texts it sends are within [MAX_CHARS]. *)
Definition createPost_respects_limit {W} (R : Remote W) : Prop :=
  forall txt s,
    Forall (fun t => length t <= MAX_CHARS)
      (submitted_texts (snd (createPost R txt s))).

Definition createThread_respects_limit {W} (R : Remote W) : Prop :=
  forall segs s,
    Forall (fun t => length t <= MAX_CHARS)
      (submitted_texts (snd (createThread R segs s))).

Definition core_respects_limit {W} (R : Remote W) : Prop :=
  createPost_respects_limit R /\ createThread_respects_limit R.

(** The slots of a list that hold a text that is not all white space, as
    the standard [filter] selects them: every such slot, as often as it
    occurs, in the order of the list. *)
Definition holds_text (o : option jsstring) : bool :=
  match o with
  | Some p => negb (forallb is_white_space p)
  | None => false
  end.

Definition non_blank_slots (a : list (option jsstring))
  : list (option jsstring) :=
  filter holds_text a.

(** The reading of "invoked with zero segments, it fails": the call is
    rejected. *)
Definition zero_segments_rejected {W} (R : Remote W) (s : BotState W) : Prop :=
  exists e, fst (fst (createThread R [] s)) = Rejected e.

(** Slots of a tab within the limit of the editor. *)
Definition within_limit (a : list (option jsstring)) : Prop :=
  Forall (fun o => match o with
                   | Some p => length p <= MAX_CHARS
                   | None => True
                   end) a.

(** What every handler of the tab keeps: the list is not empty and every
    segment in it is within the limit. *)
Definition tab_inv (t : TabState) : Prop :=
  posts t <> [] /\ within_limit (posts t).

(** ** A service to run the plugin against *)

Module Demo.

(** The world is the number of records stored so far. *)
Definition ref_of (n : nat) : StrongRef :=
  {| uri := js "at://did:plc:demo/app.bsky.feed.post/" ++ [N.of_nat n];
     cid := js "bafy" ++ [N.of_nat n] |}.

Definition network_error : Error := {| message := js "Network error" |}.

Definition resolve_error : Error :=
  {| message := js "Unable to resolve handle" |}.

(** A service that stores every record but those whose text is [bad_post],
    and detects no facet, failing on the text [bad_detect]. *)
Definition service (bad_post bad_detect : jsstring) : Remote nat :=
  {| remote_login := fun w _ _ =>
       (w, Resolved {| session_did := js "did:plc:demo" |});
     remote_detectFacets := fun w _ t =>
       if jsstring_eq_dec t bad_detect then (w, Rejected resolve_error)
       else (w, Resolved None);
     remote_post := fun w _ a =>
       if jsstring_eq_dec (post_text a) bad_post
       then (w, Rejected network_error)
       else (S w, Resolved (ref_of w));
     remote_createRecord := fun w a =>
       if jsstring_eq_dec (record_text a) bad_post
       then (w, Rejected network_error)
       else (S w, Resolved tt);
     remote_now := fun _ => js "2024-11-20T10:00:00.000Z" |}.

(** No text is refused. *)
Definition reliable : Remote nat := service (js "<bad>") (js "<bad>").

(** The submission of [Reply one] is refused. *)
Definition refusing : Remote nat := service (js "Reply one") (js "<bad>").

(** The detection on [Reply one] fails. *)
Definition undetecting : Remote nat := service (js "<bad>") (js "Reply one").

Definition start : BotState nat :=
  {| world := 0; agent := {| session := None |} |}.

Definition logged_in : BotState nat :=
  {| world := 0;
     agent := {| session := Some {| session_did := js "did:plc:demo" |} |} |}.

Definition credentials : BlueskyPluginSettings :=
  {| blueskyIdentifier := js "alice.bsky.social";
     blueskyAppPassword := js "abcd-efgh-ijkl-mnop" |}.

(** A text of 301 code units. *)
Definition oversized : jsstring := repeat 97%N 301.

Definition scenario : list jsstring :=
  [js "Root post"; js "Reply one"; js "Reply two"].

Definition tab_hello : TabState :=
  {| posts := [Some (js "Hello world")]; isPosting := false |}.

Definition tab_two : TabState :=
  {| posts := [Some (js "Root post"); Some (js "Reply one")];
     isPosting := false |}.

Definition tab_blank_middle : TabState :=
  {| posts := [Some (js "Root post"); Some (js "   ");
               Some (js "Reply two")];
     isPosting := false |}.

(** The same text twice, a blank segment in between. *)
Definition tab_repeated : TabState :=
  {| posts := [Some (js "Same text"); Some (js "   ");
               Some (js "Same text")];
     isPosting := false |}.

Definition tab_all_blank : TabState :=
  {| posts := [Some (js ""); Some (js "  ")]; isPosting := false |}.

(** The scenario on the service that refuses [Reply one]. *)
Definition refused_run : Outcome unit * BotState nat * list Event :=
  createThread refusing scenario logged_in.

(** The scenario on the service whose detection fails on [Reply one]. *)
Definition undetected_run : Outcome unit * BotState nat * list Event :=
  createThread undetecting scenario logged_in.

(** The argument of the refused submission. *)
Definition refused_args : PostArgs :=
  {| post_text := js "Reply one";
     post_reply := Some {| root := Some (ref_of 0); parent := ref_of 0 |};
     post_facets := None |}.

End Demo.

(** ** The rest of the plugin *)

(** What [handlePostChange] sets [postButton.disabled] to: as [display]
    does, but without looking at [isPosting]. *)
Definition change_postButton_disabled (a : list (option jsstring)) : bool :=
  negb (hasValidFirstPost a) || negb (hasAnyContent a).

Definition select_notice : jsstring := js "Please select some text to post".

(** The [editorCallback] of the command of [main.ts] that posts the selected
    text, [selectedText] being [editor.getSelection()]. *)
Definition postSelection {W} (R : Remote W) (settings : BlueskyPluginSettings)
    (selectedText : jsstring) : M W unit :=
  if negb (truthy selectedText) then Notice select_notice
  else
    try_catch
      (bind (createBlueskyPost R settings selectedText)
         (fun _ => Notice posted_notice))
      (fun error => Notice (js "Failed to post: " ++ message error)).

(** What [loadData()] gives: [null] when nothing was saved, else the object
    that was saved, in which a key may be missing. *)
Record StoredData :=
  { stored_blueskyIdentifier : option jsstring;
    stored_blueskyAppPassword : option jsstring }.

(** [Object.assign({}, INITIAL_BLUESKY_SETTINGS, data)]: a key of [data]
    overrides the initial value, a missing key or a [null] [data] leaves
    it. *)
Definition loadSettings (data : option StoredData) : BlueskyPluginSettings :=
  match data with
  | None => INITIAL_BLUESKY_SETTINGS
  | Some d =>
      {| blueskyIdentifier :=
           match stored_blueskyIdentifier d with
           | Some v => v
           | None => blueskyIdentifier INITIAL_BLUESKY_SETTINGS
           end;
         blueskyAppPassword :=
           match stored_blueskyAppPassword d with
           | Some v => v
           | None => blueskyAppPassword INITIAL_BLUESKY_SETTINGS
           end |}
  end.

(** [saveData(this.settings)]: what the store holds afterwards. *)
Definition saveSettings (settings : BlueskyPluginSettings)
  : option StoredData :=
  Some {| stored_blueskyIdentifier := Some (blueskyIdentifier settings);
          stored_blueskyAppPassword := Some (blueskyAppPassword settings) |}.

(** The [onChange] handlers of the settings tab: the field is set, then the
    settings are saved. *)
Definition onChange_identifier (value : jsstring)
    (settings : BlueskyPluginSettings)
  : BlueskyPluginSettings * option StoredData :=
  let settings' := {| blueskyIdentifier := value;
                      blueskyAppPassword := blueskyAppPassword settings |} in
  (settings', saveSettings settings').

Definition onChange_appPassword (value : jsstring)
    (settings : BlueskyPluginSettings)
  : BlueskyPluginSettings * option StoredData :=
  let settings' := {| blueskyIdentifier := blueskyIdentifier settings;
                      blueskyAppPassword := value |} in
  (settings', saveSettings settings').

(** *** File-system access *)

Module FileSystem.

(** The [fs] module of Node over a disk [D]: each call takes the disk and
    gives the next disk and how the call settles. *)
Record NodeFs (D : Type) :=
  { fs_access : D -> D * Outcome unit;
    fs_writeFile : D -> jsstring -> jsstring -> D * Outcome unit;
    fs_readFile : D -> jsstring -> D * Outcome jsstring }.
Arguments fs_access {D} _ _.
Arguments fs_writeFile {D} _ _ _ _.
Arguments fs_readFile {D} _ _ _.

Inductive FsEvent :=
| FsAccess (res : Outcome unit)
| FsWriteFile (path data : jsstring) (res : Outcome unit)
| FsReadFile (path : jsstring) (res : Outcome jsstring)
| FsConsoleError (label : jsstring) (e : Error).

(** The calls on the disk in a trace. *)
Definition is_disk_call (e : FsEvent) : bool :=
  match e with
  | FsConsoleError _ _ => false
  | _ => true
  end.

Definition disk_calls (tr : list FsEvent) : list FsEvent :=
  filter is_disk_call tr.

(** An [async] method over the disk. *)
Definition FsM (D A : Type) : Type := D -> Outcome A * D * list FsEvent.

(** [interface FileSystemOperations]. *)
Record FileSystemOperations (D : Type) :=
  { isWritable : FsM D bool;
    writeFile : jsstring -> jsstring -> FsM D unit;
    readFile : jsstring -> FsM D jsstring }.
Arguments isWritable {D} _ _.
Arguments writeFile {D} _ _ _ _.
Arguments readFile {D} _ _ _.

(** [class DesktopFileSystem]. *)
Definition DesktopFileSystem {D} (fs : NodeFs D) : FileSystemOperations D :=
  {| isWritable := fun d =>
       let '(d', r) := fs_access fs d in
       match r with
       | Resolved _ => (Resolved true, d', [FsAccess r])
       | Rejected _ => (Resolved false, d', [FsAccess r])
       end;
     writeFile := fun path data d =>
       let '(d', r) := fs_writeFile fs d path data in
       (r, d', [FsWriteFile path data r]);
     readFile := fun path d =>
       let '(d', r) := fs_readFile fs d path in
       (r, d', [FsReadFile path r]) |}.

Definition mobile_error : Error :=
  {| message := js "Direct filesystem access not available on mobile" |}.

(** [class MobileFileSystem]. *)
Definition MobileFileSystem {D} : FileSystemOperations D :=
  {| isWritable := fun d => (Resolved false, d, []);
     writeFile := fun _ _ d => (Rejected mobile_error, d, []);
     readFile := fun _ d => (Rejected mobile_error, d, []) |}.

(** [this.fileSystem] as the constructor of the plugin sets it, from
    [Platform.isDesktop]. *)
Definition fileSystem_of {D} (isDesktop : bool) (fs : NodeFs D)
  : FileSystemOperations D :=
  if isDesktop then DesktopFileSystem fs else MobileFileSystem.

(** [withFileSystem(operation, fallback)]. *)
Definition withFileSystem {D T} (fileSystem : FileSystemOperations D)
    (operation : FileSystemOperations D -> FsM D T) (fallback : T)
  : FsM D T :=
  fun d =>
    match operation fileSystem d with
    | (Resolved v, d', tr) => (Resolved v, d', tr)
    | (Rejected error, d', tr) =>
        (Resolved fallback, d',
         tr ++ [FsConsoleError (js "Filesystem operation failed:") error])
    end.

End FileSystem.

(** ** Properties *)

(** *** Projections of traces *)

Lemma post_calls_app (t1 t2 : list Event) :
  post_calls (t1 ++ t2) = post_calls t1 ++ post_calls t2.
Proof.
  induction t1 as [|e t1 IH]; simpl; [reflexivity|].
  destruct e; simpl; rewrite IH; reflexivity.
Qed.

Lemma submitted_texts_app (t1 t2 : list Event) :
  submitted_texts (t1 ++ t2) = submitted_texts t1 ++ submitted_texts t2.
Proof.
  induction t1 as [|e t1 IH]; simpl; [reflexivity|].
  destruct e; simpl; rewrite IH; reflexivity.
Qed.

Lemma submitted_texts_post_calls (tr : list Event) :
  record_calls tr = [] ->
  submitted_texts tr = map (fun c => post_text (fst c)) (post_calls tr).
Proof.
  induction tr as [|e tr IH]; simpl; [reflexivity|].
  destruct e; simpl; intros H; try (apply IH; assumption).
  - rewrite IH by assumption. reflexivity.
  - discriminate.
Qed.

(** *** The loop runs as [thread_run] says *)

Lemma createThread_loop_run W (R : Remote W) :
  forall segs rootPost lastPost s r s' tr,
    createThread_loop R segs rootPost lastPost s = (r, s', tr) ->
    thread_run segs rootPost lastPost r tr.
Proof.
  induction segs as [|txt rest IH]; intros rootPost lastPost s r s' tr.
  - simpl. unfold ret. intros H. inversion H; subst. constructor.
  - simpl. unfold bind, detectFacets, agent_post.
    destruct (remote_detectFacets R (world s) (session (agent s)) txt)
      as [w1 [fs|e]]; simpl.
    + destruct (remote_post R w1 (session (agent s)) _) as [w2 [ref|e]] eqn:Ep;
        simpl.
      * destruct (createThread_loop R rest _ _ _) as [[r0 s0] t0] eqn:El.
        intros H. inversion H; subst.
        apply IH in El.
        replace {| uri := uri ref; cid := cid ref |} with ref in El
          by (destruct ref; reflexivity).
        apply run_next. exact El.
      * intros H. inversion H; subst. apply run_post_rejected.
    + intros H. inversion H; subst. apply run_detect_rejected.
Qed.

(** *** What every run of the loop satisfies *)

Lemma thread_run_no_createRecord segs rootPost lastPost r tr :
  thread_run segs rootPost lastPost r tr -> record_calls tr = [].
Proof. induction 1; simpl; auto. Qed.

Lemma thread_run_resolved_texts segs rootPost lastPost u tr :
  thread_run segs rootPost lastPost (Resolved u) tr ->
  submitted_texts tr = segs.
Proof.
  intros H. remember (Resolved u) as r eqn:Er.
  induction H; try discriminate; simpl; [reflexivity|].
  f_equal. auto.
Qed.

Lemma thread_run_prefix segs rootPost lastPost r tr :
  thread_run segs rootPost lastPost r tr ->
  exists rest, segs = submitted_texts tr ++ rest.
Proof.
  induction 1; simpl.
  - exists []. reflexivity.
  - exists (txt :: rest). reflexivity.
  - exists rest. reflexivity.
  - destruct IHthread_run as [rest' ->]. exists rest'. reflexivity.
Qed.

(** Once a root and a predecessor are recorded, every submission replies to
    that root, and to the reference the submission before it was given. *)
Lemma thread_run_chain segs r0 l r tr :
  thread_run segs (Some r0) (Some l) r tr ->
  forall i a res,
    nth_error (post_calls tr) i = Some (a, res) ->
    exists p,
      post_reply a = Some {| root := Some r0; parent := p |} /\
      match i with
      | 0 => p = l
      | S j => exists aj, nth_error (post_calls tr) j = Some (aj, Resolved p)
      end.
Proof.
  intros H.
  remember (Some r0) as rootPost eqn:Er.
  remember (Some l) as lastPost eqn:El.
  revert l El.
  induction H as [rootPost lastPost|txt rest rootPost lastPost e
                 |txt rest rootPost lastPost fs e
                 |txt rest rootPost lastPost fs ref r tr H IH];
    intros l El i a res Hn; subst; simpl in Hn.
  - destruct i; discriminate.
  - destruct i; discriminate.
  - destruct i as [|[|i]]; try discriminate.
    inversion Hn; subst. exists l. split; reflexivity.
  - destruct i as [|j].
    + inversion Hn; subst. exists l. split; reflexivity.
    + simpl in Hn.
      destruct (IH eq_refl ref eq_refl j a res Hn) as [p [Hp Hj]].
      exists p. split; [exact Hp|].
      destruct j as [|j']; simpl.
      * subst p. eexists. reflexivity.
      * exact Hj.
Qed.

(** A run started with neither root nor predecessor: the first submission
    replies to nothing, every later one to the first reference and to the
    reference of the submission before it. *)
Lemma thread_run_chain_from_start segs r tr :
  thread_run segs None None r tr ->
  (forall a res, nth_error (post_calls tr) 0 = Some (a, res) ->
                 post_reply a = None) /\
  (forall i a res,
      nth_error (post_calls tr) (S i) = Some (a, res) ->
      exists a0 ref0 ai refi,
        nth_error (post_calls tr) 0 = Some (a0, Resolved ref0) /\
        nth_error (post_calls tr) i = Some (ai, Resolved refi) /\
        post_reply a = Some {| root := Some ref0; parent := refi |}).
Proof.
  intros H. inversion H as [| | |txt rest rp lp fs ref r' tr' H']; subst; simpl.
  - split; intros; [discriminate|]. destruct i; discriminate.
  - split; intros; [discriminate|]. destruct i; discriminate.
  - split.
    + intros a res Hn. inversion Hn; subst. reflexivity.
    + intros i a res Hn. destruct i; discriminate.
  - split.
    + intros a res Hn. inversion Hn; subst. reflexivity.
    + intros i a res Hn.
      assert (Hroot : root_after None ref = Some ref)
        by (destruct ref; reflexivity).
      rewrite Hroot in H'.
      destruct (thread_run_chain _ _ _ _ _ H' _ _ _ Hn) as [p [Hp Hi]].
      destruct i as [|j].
      * subst p. do 4 eexists. repeat split; try reflexivity. exact Hp.
      * destruct Hi as [aj Haj].
        do 4 eexists. repeat split; try reflexivity; [exact Haj|exact Hp].
Qed.

Lemma createThread_inv W (R : Remote W) segs s r s' tr :
  segs <> [] ->
  createThread R segs s = (r, s', tr) ->
  exists r0 tr0,
    thread_run segs None None r0 tr0 /\
    match r0 with
    | Resolved _ =>
        r = Resolved tt /\
        tr = tr0 ++ [EvNotice posted_notice]
    | Rejected e => r = Rejected e /\ tr = tr0
    end.
Proof.
  intros Hne H. destruct segs as [|txt rest]; [congruence|].
  unfold createThread, bind in H.
  destruct (createThread_loop R (txt :: rest) None None s)
    as [[r0 s0] tr0] eqn:El.
  apply createThread_loop_run in El.
  exists r0, tr0. split; [exact El|].
  destruct r0 as [u|e].
  - unfold Notice, emit in H. inversion H; subst. split; reflexivity.
  - inversion H; subst. split; reflexivity.
Qed.

(** *** C1 *)

(** C1. For every sequence of [N > 1] segments on which [createThread]
    succeeds, exactly [N] submissions are issued, in segment order; the first
    carries no reply link, and submission [i > 0] carries [reply.root] equal
    to the reference returned by submission [0] and [reply.parent] equal to
    the reference returned by submission [i - 1]. *)
Theorem createThread_reply_chain W (R : Remote W) :
  forall segs s s' tr,
    1 < length segs ->
    createThread R segs s = (Resolved tt, s', tr) ->
    length (post_calls tr) = length segs /\
    submitted_texts tr = segs /\
    map (fun c => post_text (fst c)) (post_calls tr) = segs /\
    (forall a res, nth_error (post_calls tr) 0 = Some (a, res) ->
                   post_reply a = None) /\
    (forall i a res,
        nth_error (post_calls tr) (S i) = Some (a, res) ->
        exists a0 ref0 ai refi,
          nth_error (post_calls tr) 0 = Some (a0, Resolved ref0) /\
          nth_error (post_calls tr) i = Some (ai, Resolved refi) /\
          post_reply a = Some {| root := Some ref0; parent := refi |}).
Proof.
  intros segs s s' tr Hlen H.
  assert (Hne : segs <> []) by (destruct segs; simpl in Hlen; [lia|congruence]).
  destruct (createThread_inv W R segs s _ s' tr Hne H) as [r0 [tr0 [Hrun Hr]]].
  destruct r0 as [u|e]; [|destruct Hr; discriminate].
  destruct Hr as [_ ->].
  pose proof (thread_run_resolved_texts _ _ _ _ _ Hrun) as Htexts.
  pose proof (thread_run_no_createRecord _ _ _ _ _ Hrun) as Hrec.
  pose proof (submitted_texts_post_calls _ Hrec) as Hmap.
  rewrite post_calls_app, submitted_texts_app; simpl.
  rewrite !app_nil_r.
  assert (Hm : map (fun c => post_text (fst c)) (post_calls tr0) = segs)
    by congruence.
  split; [rewrite <- Hm; rewrite length_map; reflexivity|].
  split; [exact Htexts|].
  split; [exact Hm|].
  exact (thread_run_chain_from_start _ _ _ Hrun).
Qed.

(** The thread of the specification's scenario, published on a service that
    refuses nothing. *)
Lemma createThread_reply_chain_witness :
  1 < length Demo.scenario /\
  createThread Demo.reliable Demo.scenario Demo.logged_in
  = (Resolved tt, {| world := 3; agent := agent Demo.logged_in |},
     snd (createThread Demo.reliable Demo.scenario Demo.logged_in)) /\
  map (fun c => post_reply (fst c))
    (post_calls (snd (createThread Demo.reliable Demo.scenario Demo.logged_in)))
  = [None;
     Some {| root := Some (Demo.ref_of 0); parent := Demo.ref_of 0 |};
     Some {| root := Some (Demo.ref_of 0); parent := Demo.ref_of 1 |}] /\
  length
    (post_calls (snd (createThread Demo.reliable Demo.scenario Demo.logged_in)))
  = 3.
Proof.
  assert (Hlen : 1 < length Demo.scenario) by (vm_compute; lia).
  assert (Hrun :
    createThread Demo.reliable Demo.scenario Demo.logged_in
    = (Resolved tt, {| world := 3; agent := agent Demo.logged_in |},
       snd (createThread Demo.reliable Demo.scenario Demo.logged_in)))
    by (vm_compute; reflexivity).
  split; [exact Hlen|]. split; [exact Hrun|].
  split; [vm_compute; reflexivity|].
  exact (proj1 (createThread_reply_chain nat Demo.reliable Demo.scenario
                  _ _ _ Hlen Hrun)).
Defined.

(** *** Runs that are cut short *)

Lemma notices_app (t1 t2 : list Event) :
  notices (t1 ++ t2) = notices t1 ++ notices t2.
Proof.
  induction t1 as [|e t1 IH]; simpl; [reflexivity|].
  destruct e; simpl; rewrite IH; reflexivity.
Qed.

Lemma detect_calls_app (t1 t2 : list Event) :
  detect_calls (t1 ++ t2) = detect_calls t1 ++ detect_calls t2.
Proof.
  induction t1 as [|e t1 IH]; simpl; [reflexivity|].
  destruct e; simpl; rewrite IH; reflexivity.
Qed.

Lemma thread_run_no_notice segs rootPost lastPost r tr :
  thread_run segs rootPost lastPost r tr -> notices tr = [].
Proof. induction 1; simpl; auto. Qed.

(** A run in which the submission of index [k] is rejected. *)
Lemma thread_run_post_rejected segs rootPost lastPost r tr :
  thread_run segs rootPost lastPost r tr ->
  forall k a e,
    nth_error (post_calls tr) k = Some (a, Rejected e) ->
    r = Rejected e /\
    length (post_calls tr) = S k /\
    (forall i, i < k ->
       exists ai refi,
         nth_error (post_calls tr) i = Some (ai, Resolved refi) /\
         nth_error segs i = Some (post_text ai)) /\
    nth_error segs k = Some (post_text a) /\
    submitted_texts tr = firstn (S k) segs /\
    exists tr0, tr = tr0 ++ [EvAgentPost a (Rejected e)].
Proof.
  induction 1 as [rootPost lastPost|txt rest rootPost lastPost e0
                 |txt rest rootPost lastPost fs e0
                 |txt rest rootPost lastPost fs ref r tr H IH];
    intros k a e Hn; simpl in Hn.
  - destruct k; discriminate.
  - destruct k; discriminate.
  - destruct k as [|[|k]]; try discriminate.
    inversion Hn; subst. simpl.
    repeat split; try reflexivity.
    + intros i Hi. lia.
    + exists [EvDetectFacets txt (Resolved fs)]. reflexivity.
  - destruct k as [|k]; [discriminate|]. simpl in Hn.
    destruct (IH k a e Hn) as (Hr & Hlen & Hbefore & Hk & Htexts & tr0 & Htr).
    simpl. repeat split; auto.
    + intros i Hi. destruct i as [|i]; simpl.
      * do 2 eexists. split; reflexivity.
      * apply Hbefore. lia.
    + rewrite Htexts. reflexivity.
    + exists (EvDetectFacets txt (Resolved fs)
              :: EvAgentPost (thread_args txt rootPost lastPost fs)
                   (Resolved ref) :: tr0).
      rewrite Htr. reflexivity.
Qed.

(** A run in which the detection of index [k] is rejected. *)
Lemma thread_run_detect_rejected segs rootPost lastPost r tr :
  thread_run segs rootPost lastPost r tr ->
  forall k txt e,
    nth_error (detect_calls tr) k = Some (txt, Rejected e) ->
    r = Rejected e /\
    nth_error segs k = Some txt /\
    length (detect_calls tr) = S k /\
    length (post_calls tr) = k /\
    submitted_texts tr = firstn k segs /\
    exists tr0, tr = tr0 ++ [EvDetectFacets txt (Rejected e)].
Proof.
  induction 1 as [rootPost lastPost|txt0 rest rootPost lastPost e0
                 |txt0 rest rootPost lastPost fs e0
                 |txt0 rest rootPost lastPost fs ref r tr H IH];
    intros k txt e Hn; simpl in Hn.
  - destruct k; discriminate.
  - destruct k as [|k]; [|destruct k; discriminate].
    inversion Hn; subst. simpl.
    repeat split; try reflexivity. exists []. reflexivity.
  - destruct k as [|[|k]]; discriminate.
  - destruct k as [|k]; [discriminate|]. simpl in Hn.
    destruct (IH k txt e Hn) as (Hr & Hk & Hd & Hp & Htexts & tr0 & Htr).
    simpl. repeat split; auto.
    + rewrite Htexts. reflexivity.
    + exists (EvDetectFacets txt0 (Resolved fs)
              :: EvAgentPost (thread_args txt0 rootPost lastPost fs)
                   (Resolved ref) :: tr0).
      rewrite Htr. reflexivity.
Qed.

(** A rejected run of [createThread] is a rejected run of its loop, with the
    same trace. *)
Lemma createThread_trace W (R : Remote W) segs s r s' tr :
  createThread R segs s = (r, s', tr) ->
  exists r0 tr0,
    thread_run segs None None r0 tr0 /\
    post_calls tr = post_calls tr0 /\
    detect_calls tr = detect_calls tr0 /\
    forall e, r0 = Rejected e -> r = Rejected e /\ tr = tr0.
Proof.
  intros H. destruct segs as [|txt rest].
  - unfold createThread, ret in H. inversion H; subst.
    exists (Resolved tt), [].
    split; [constructor|]. split; [reflexivity|]. split; [reflexivity|].
    intros e He. discriminate.
  - assert (Hne : txt :: rest <> []) by congruence.
    destruct (createThread_inv W R _ s r s' tr Hne H) as [r0 [tr0 [Hrun Hr]]].
    exists r0, tr0. split; [exact Hrun|].
    destruct r0 as [u|e0].
    + destruct Hr as [_ ->].
      rewrite post_calls_app, detect_calls_app. simpl. rewrite !app_nil_r.
      split; [reflexivity|]. split; [reflexivity|].
      intros e He. discriminate.
    + destruct Hr as [-> ->].
      split; [reflexivity|]. split; [reflexivity|].
      intros e1 He1. inversion He1; subst. split; reflexivity.
Qed.

(** *** C2 *)

(** C2. If the submission of the segment at index [k] is rejected during
    [createThread], the [k] segments before it have been submitted and
    accepted, in order, the rejected call is the last event of the run, so
    that nothing is submitted for index [k + 1] or later and nothing is done
    to the records already stored, and the operation is rejected with the
    error of that call. *)
Theorem createThread_submission_rejected W (R : Remote W) :
  forall segs s r s' tr k a e,
    createThread R segs s = (r, s', tr) ->
    nth_error (post_calls tr) k = Some (a, Rejected e) ->
    r = Rejected e /\
    length (post_calls tr) = S k /\
    (forall i, i < k ->
       exists ai refi,
         nth_error (post_calls tr) i = Some (ai, Resolved refi) /\
         nth_error segs i = Some (post_text ai)) /\
    nth_error segs k = Some (post_text a) /\
    submitted_texts tr = firstn (S k) segs /\
    exists tr0, tr = tr0 ++ [EvAgentPost a (Rejected e)].
Proof.
  intros segs s r s' tr k a e H Hn.
  destruct (createThread_trace W R segs s r s' tr H)
    as (r0 & tr0 & Hrun & Hp & _ & Hrej).
  rewrite Hp in Hn.
  destruct (thread_run_post_rejected _ _ _ _ _ Hrun k a e Hn)
    as (Hr & Hlen & Hbefore & Hk & Htexts & tr1 & Htr).
  destruct (Hrej e Hr) as [-> ->].
  repeat split; auto.
  exists tr1. exact Htr.
Qed.

(** The second of three submissions is refused: one record is stored, the
    third segment is never sent. *)
Lemma createThread_submission_rejected_witness :
  nth_error (post_calls (snd Demo.refused_run)) 1
  = Some (Demo.refused_args, Rejected Demo.network_error) /\
  fst (fst Demo.refused_run) = Rejected Demo.network_error /\
  length (post_calls (snd Demo.refused_run)) = 2 /\
  submitted_texts (snd Demo.refused_run) = [js "Root post"; js "Reply one"] /\
  world (snd (fst Demo.refused_run)) = 1.
Proof.
  assert (Hn : nth_error (post_calls (snd Demo.refused_run)) 1
               = Some (Demo.refused_args, Rejected Demo.network_error))
    by (vm_compute; reflexivity).
  assert (Hrun : createThread Demo.refusing Demo.scenario Demo.logged_in
                 = (fst (fst Demo.refused_run), snd (fst Demo.refused_run),
                    snd Demo.refused_run))
    by (vm_compute; reflexivity).
  destruct (createThread_submission_rejected nat Demo.refusing Demo.scenario
              _ _ _ _ 1 _ _ Hrun Hn) as (Hr & Hlen & _ & _ & Htexts & _).
  split; [exact Hn|]. split; [exact Hr|]. split; [exact Hlen|].
  split; [exact Htexts|]. vm_compute; reflexivity.
Defined.

(** *** C3 *)

(** C3, as the code has it.  If the facet detection of the segment at index
    [k] is rejected during [createThread], the operation is rejected with
    that error: the rejected detection is the last event of the run, the
    segment is not submitted and no later segment is processed; the [k]
    segments before it have been submitted. *)
Theorem createThread_detection_rejected W (R : Remote W) :
  forall segs s r s' tr k txt e,
    createThread R segs s = (r, s', tr) ->
    nth_error (detect_calls tr) k = Some (txt, Rejected e) ->
    r = Rejected e /\
    nth_error segs k = Some txt /\
    length (detect_calls tr) = S k /\
    length (post_calls tr) = k /\
    submitted_texts tr = firstn k segs /\
    exists tr0, tr = tr0 ++ [EvDetectFacets txt (Rejected e)].
Proof.
  intros segs s r s' tr k txt e H Hn.
  destruct (createThread_trace W R segs s r s' tr H)
    as (r0 & tr0 & Hrun & _ & Hd & Hrej).
  rewrite Hd in Hn.
  destruct (thread_run_detect_rejected _ _ _ _ _ Hrun k txt e Hn)
    as (Hr & Hk & Hdl & Hpl & Htexts & tr1 & Htr).
  destruct (Hrej e Hr) as [-> ->].
  repeat split; auto.
  exists tr1. exact Htr.
Qed.

(** Detection fails on the second of three segments: only the first one is
    submitted. *)
Lemma createThread_detection_rejected_witness :
  nth_error (detect_calls (snd Demo.undetected_run)) 1
  = Some (js "Reply one", Rejected Demo.resolve_error) /\
  fst (fst Demo.undetected_run) = Rejected Demo.resolve_error /\
  submitted_texts (snd Demo.undetected_run) = [js "Root post"].
Proof.
  assert (Hn : nth_error (detect_calls (snd Demo.undetected_run)) 1
               = Some (js "Reply one", Rejected Demo.resolve_error))
    by (vm_compute; reflexivity).
  assert (Hrun : createThread Demo.undetecting Demo.scenario Demo.logged_in
                 = (fst (fst Demo.undetected_run),
                    snd (fst Demo.undetected_run), snd Demo.undetected_run))
    by (vm_compute; reflexivity).
  destruct (createThread_detection_rejected nat Demo.undetecting Demo.scenario
              _ _ _ _ 1 _ _ Hrun Hn) as (Hr & _ & _ & _ & Htexts & _).
  split; [exact Hn|]. split; [exact Hr|]. exact Htexts.
Defined.

(** C3 as stated fails: on a service whose detection fails on the second
    of three segments, that segment is not submitted (and neither is the
    third). *)
Lemma detection_failure_aborts_thread :
  ~ detection_failure_tolerated Demo.undetecting Demo.scenario Demo.logged_in.
Proof.
  unfold detection_failure_tolerated. intros H.
  destruct (H 1 (js "Reply one") Demo.resolve_error) as (a & res & Hn & _).
  - vm_compute. reflexivity.
  - vm_compute in Hn. discriminate.
Qed.

(** *** C6 *)

(** C6, as the code has it.  When the submission at index [k] is rejected,
    what [createThread] hands to its caller is the rejection with the error
    of that call, as the service gave it, and no notice has been shown. *)
Theorem createThread_failure_surfaces_error W (R : Remote W) :
  forall segs s r s' tr k a e,
    createThread R segs s = (r, s', tr) ->
    nth_error (post_calls tr) k = Some (a, Rejected e) ->
    r = Rejected e /\ notices tr = [].
Proof.
  intros segs s r s' tr k a e H Hn.
  destruct (createThread_trace W R segs s r s' tr H)
    as (r0 & tr0 & Hrun & Hp & _ & Hrej).
  rewrite Hp in Hn.
  destruct (thread_run_post_rejected _ _ _ _ _ Hrun k a e Hn) as (Hr & _).
  destruct (Hrej e Hr) as [-> ->].
  split; [reflexivity|].
  exact (thread_run_no_notice _ _ _ _ _ Hrun).
Qed.

Lemma createThread_failure_surfaces_error_witness :
  nth_error (post_calls (snd Demo.refused_run)) 1
  = Some (Demo.refused_args, Rejected Demo.network_error) /\
  fst (fst Demo.refused_run) = Rejected Demo.network_error /\
  notices (snd Demo.refused_run) = [].
Proof.
  assert (Hn : nth_error (post_calls (snd Demo.refused_run)) 1
               = Some (Demo.refused_args, Rejected Demo.network_error))
    by (vm_compute; reflexivity).
  assert (Hrun : createThread Demo.refusing Demo.scenario Demo.logged_in
                 = (fst (fst Demo.refused_run), snd (fst Demo.refused_run),
                    snd Demo.refused_run))
    by (vm_compute; reflexivity).
  split; [exact Hn|].
  exact (createThread_failure_surfaces_error nat Demo.refusing Demo.scenario
           _ _ _ _ 1 _ _ Hrun Hn).
Defined.

(** C6 as stated fails: a thread refused at index 0 and a thread refused at
    index 1 hand the same rejection to the caller and show the same notices,
    so the count cannot be read off them. *)
Lemma failure_count_not_reported :
  ~ failure_reports_count Demo.refusing.
Proof.
  intros [count_of H].
  pose (run0 := createThread Demo.refusing [js "Reply one"; js "Reply two"]
                  Demo.logged_in).
  pose (run1 := createThread Demo.refusing [js "Root post"; js "Reply one"]
                  Demo.logged_in).
  assert (H0 : count_of (fst (fst run0)) (notices (snd run0)) = 0).
  { apply (H [js "Reply one"; js "Reply two"] Demo.logged_in _ (snd (fst run0))
             _ 0 (thread_args (js "Reply one") None None None)
             Demo.network_error); vm_compute; reflexivity. }
  assert (H1 : count_of (fst (fst run1)) (notices (snd run1)) = 1).
  { apply (H [js "Root post"; js "Reply one"] Demo.logged_in _ (snd (fst run1))
             _ 1 Demo.refused_args Demo.network_error);
      vm_compute; reflexivity. }
  assert (E1 : fst (fst run0) = fst (fst run1)) by (vm_compute; reflexivity).
  assert (E2 : notices (snd run0) = notices (snd run1))
    by (vm_compute; reflexivity).
  rewrite E1, E2 in H0. congruence.
Qed.

(** *** C4 *)

(** C4. When the identifier or the secret of the settings is the empty
    string, [login] shows the notice first, calls nothing on the remote
    service, leaves the state as it was and is rejected with the
    missing-credentials error. *)
Theorem login_missing_credentials W (R : Remote W) :
  forall settings s,
    blueskyIdentifier settings = js "" \/ blueskyAppPassword settings = js "" ->
    login R settings s
    = (Rejected missing_credentials, s,
       [EvNotice not_logged_in_notice;
        EvConsoleError (js "Failed to login:") missing_credentials]) /\
    remote_calls (snd (login R settings s)) = [] /\
    login_calls (snd (login R settings s)) = [].
Proof.
  intros [ident pass] s H. simpl in H.
  assert (Hrun :
    login R {| blueskyIdentifier := ident; blueskyAppPassword := pass |} s
    = (Rejected missing_credentials, s,
       [EvNotice not_logged_in_notice;
        EvConsoleError (js "Failed to login:") missing_credentials])).
  { destruct H as [H|H]; change (js "") with (@nil code_unit) in H; subst.
    - reflexivity.
    - destruct ident; reflexivity. }
  rewrite Hrun. repeat split.
Qed.

(** With the settings the plugin starts from, both fields are empty. *)
Lemma login_missing_credentials_witness :
  fst (fst (login Demo.reliable INITIAL_BLUESKY_SETTINGS Demo.start))
  = Rejected missing_credentials /\
  remote_calls (snd (login Demo.reliable INITIAL_BLUESKY_SETTINGS Demo.start))
  = [].
Proof.
  destruct (login_missing_credentials nat Demo.reliable
              INITIAL_BLUESKY_SETTINGS Demo.start (or_introl eq_refl))
    as (Hrun & Hcalls & _).
  split; [rewrite Hrun; reflexivity|exact Hcalls].
Defined.

(** *** C5 *)

(** C5, as the code has it.  Called with no segment, [createThread] returns
    at once: it resolves, submits nothing, shows no notice and leaves the
    state as it was.  [publishContent] on a list with no segment left after
    filtering returns before it logs in, the tab unchanged. *)
Theorem createThread_zero_segments W (R : Remote W) :
  forall s,
    createThread R [] s = (Resolved tt, s, []) /\
    forall settings t,
      filter_trim (posts t) = [] ->
      publishContent R settings t s = (Resolved t, s, []).
Proof.
  intros s. split; [reflexivity|].
  intros settings t H. unfold publishContent.
  destruct (isPosting t); [reflexivity|].
  rewrite H. reflexivity.
Qed.

Lemma createThread_zero_segments_witness :
  filter_trim (posts Demo.tab_all_blank) = [] /\
  publishContent Demo.reliable Demo.credentials Demo.tab_all_blank Demo.start
  = (Resolved Demo.tab_all_blank, Demo.start, []).
Proof.
  assert (H : filter_trim (posts Demo.tab_all_blank) = [])
    by (vm_compute; reflexivity).
  split; [exact H|].
  exact (proj2 (createThread_zero_segments nat Demo.reliable Demo.start)
           Demo.credentials Demo.tab_all_blank H).
Defined.

(** C5 as stated fails: the call with zero segments is not rejected. *)
Lemma zero_segments_not_rejected :
  ~ zero_segments_rejected Demo.reliable Demo.logged_in.
Proof. intros [e H]. vm_compute in H. discriminate. Qed.

(** *** What [login], [createPost] and [publishContent] leave in the trace *)

Lemma login_trace W (R : Remote W) settings s r s' tr :
  login R settings s = (r, s', tr) ->
  submitted_texts tr = [] /\ post_calls tr = [] /\ record_calls tr = [].
Proof.
  unfold login, try_catch, bind, agent_login, Notice, console_error, emit,
    throw, ret.
  destruct (negb (truthy (blueskyIdentifier settings))
            || negb (truthy (blueskyAppPassword settings))); simpl.
  - intros H. inversion H; subst. repeat split.
  - destruct (remote_login R (world s) _ _) as [w1 [sess|e]]; simpl;
      intros H; inversion H; subst; repeat split.
Qed.

(** [login] with both credentials, accepted by the service. *)
Lemma login_accepted W (R : Remote W) settings s w1 sess :
  blueskyIdentifier settings <> [] ->
  blueskyAppPassword settings <> [] ->
  remote_login R (world s) (blueskyIdentifier settings)
    (blueskyAppPassword settings) = (w1, Resolved sess) ->
  login R settings s
  = (Resolved tt, {| world := w1; agent := {| session := Some sess |} |},
     [EvAgentLogin (blueskyIdentifier settings) (blueskyAppPassword settings)
        (Resolved sess)]).
Proof.
  intros Hi Hp Hl.
  unfold login, try_catch, bind, agent_login, ret.
  destruct (blueskyIdentifier settings) as [|c i]; [congruence|].
  destruct (blueskyAppPassword settings) as [|d p]; [congruence|].
  simpl. rewrite Hl. reflexivity.
Qed.

(** [createPost] under a session that has a [did]: one [createRecord] with
    the text as given, whatever the service answers. *)
Lemma createPost_with_session W (R : Remote W) txt s sess :
  session (agent s) = Some sess ->
  session_did sess <> [] ->
  exists r s' tr0 res,
    createPost R txt s
    = (r, s',
       EvCreateRecord {| repo := session_did sess;
                         collection := js "app.bsky.feed.post";
                         record_text := txt;
                         record_createdAt := remote_now R (world s) |} res
       :: tr0) /\
    record_calls tr0 = [] /\ post_calls tr0 = [] /\ submitted_texts tr0 = [].
Proof.
  intros Hs Hd.
  unfold createPost, try_catch, bind, get_session, now, createRecord, Notice,
    console_error, emit, throw, ret.
  rewrite Hs. simpl.
  destruct (session_did sess) as [|c d] eqn:Ed; [congruence|]. simpl.
  destruct (remote_createRecord R (world s) _) as [w1 [u|e]] eqn:Ec; simpl.
  - do 4 eexists. split; [reflexivity|]. repeat split.
  - do 4 eexists. split; [reflexivity|]. repeat split.
Qed.

Lemma createPost_trace W (R : Remote W) txt s r s' tr :
  createPost R txt s = (r, s', tr) ->
  post_calls tr = [] /\
  (submitted_texts tr = [] \/ submitted_texts tr = [txt]) /\
  (forall u, r = Resolved u -> submitted_texts tr = [txt]).
Proof.
  unfold createPost, try_catch, bind, get_session, now, createRecord, Notice,
    console_error, emit, throw, ret.
  destruct (session_did_opt (session (agent s))) as [[|c d]|]; simpl.
  - intros H. inversion H; subst.
    repeat split; auto; try (intros; discriminate).
  - destruct (remote_createRecord R (world s) _) as [w1 [u|e]]; simpl;
      intros H; inversion H; subst; simpl; repeat split; auto;
      try (intros; discriminate).
  - intros H. inversion H; subst.
    repeat split; auto; try (intros; discriminate).
Qed.

(** The texts [createThread] sends are the segments it was given, in order,
    up to where it stopped. *)
Lemma createThread_prefix W (R : Remote W) segs s r s' tr :
  createThread R segs s = (r, s', tr) ->
  (exists rest, segs = submitted_texts tr ++ rest) /\
  (forall u, r = Resolved u -> submitted_texts tr = segs).
Proof.
  intros H. destruct segs as [|txt rest].
  - unfold createThread, ret in H. inversion H; subst. simpl.
    split; [exists []; reflexivity|reflexivity].
  - assert (Hne : txt :: rest <> []) by congruence.
    destruct (createThread_inv W R _ s r s' tr Hne H) as [r0 [tr0 [Hrun Hr]]].
    destruct r0 as [u0|e0].
    + destruct Hr as [-> ->]. rewrite submitted_texts_app. simpl.
      rewrite app_nil_r.
      rewrite (thread_run_resolved_texts _ _ _ _ _ Hrun).
      split; [exists []; rewrite app_nil_r; reflexivity|reflexivity].
    + destruct Hr as [-> ->].
      split; [exact (thread_run_prefix _ _ _ _ _ Hrun)|].
      intros; discriminate.
Qed.

Lemma publish_valid_prefix W (R : Remote W) settings vp s r s' tr :
  publish_valid R settings vp s = (r, s', tr) ->
  (exists rest, vp = submitted_texts tr ++ rest) /\
  (forall u, r = Resolved u -> submitted_texts tr = vp).
Proof.
  unfold publish_valid, bind.
  destruct (login R settings s) as [[rl sl] tl] eqn:El.
  destruct (login_trace W R settings s rl sl tl El) as (Hl & _ & _).
  destruct rl as [u|e].
  - destruct (match vp with
              | [only] => createPost R only
              | _ => createThread R vp
              end sl) as [[r2 s2] t2] eqn:E2.
    intros H. inversion H; subst. rewrite submitted_texts_app, Hl. simpl.
    destruct vp as [|p [|q vp']].
    + apply createThread_prefix in E2. exact E2.
    + destruct (createPost_trace W R p sl r s' t2 E2) as (_ & Hor & Hres).
      split; [|exact Hres].
      destruct Hor as [-> | ->]; [exists [p]|exists []]; reflexivity.
    + apply createThread_prefix in E2. exact E2.
  - intros H. inversion H; subst. rewrite Hl.
    split; [exists vp; reflexivity|intros; discriminate].
Qed.

(** The two ways [publishContent] goes: it returns at once, or it runs
    [publish_valid] on the filtered list between two renderings. *)
Lemma publishContent_inv W (R : Remote W) settings t s :
  (publishContent R settings t s = (Resolved t, s, []) /\
   (isPosting t = true \/ filter_trim (posts t) = [])) \/
  (isPosting t = false /\ filter_trim (posts t) <> [] /\
   exists r1 s1 tr1,
     publish_valid R settings (filter_trim (posts t)) s = (r1, s1, tr1) /\
     let after :=
       {| posts := match r1 with
                   | Resolved _ => [Some (js "")]
                   | Rejected _ => posts t
                   end;
          isPosting := false |} in
     publishContent R settings t s
     = (Resolved after, s1,
        EvDisplay {| posts := posts t; isPosting := true |}
        :: tr1
        ++ match r1 with
           | Resolved _ => []
           | Rejected e => [EvConsoleError (js "Failed to post:") e]
           end
        ++ [EvDisplay after])).
Proof.
  unfold publishContent.
  destruct (isPosting t) eqn:Ep; [left; auto|].
  destruct (filter_trim (posts t)) as [|p vp] eqn:Ev; [left; auto|].
  right. split; [reflexivity|]. split; [congruence|].
  destruct (publish_valid R settings (p :: vp) s) as [[r1 s1] tr1] eqn:E1.
  exists r1, s1, tr1. split; [reflexivity|].
  unfold bind, try_catch, display, console_error, emit, ret. simpl.
  rewrite E1. destruct r1 as [u|e]; simpl.
  - rewrite app_nil_r. reflexivity.
  - rewrite <- app_assoc. reflexivity.
Qed.

(** *** Trimming and filtering *)

Lemma trimStart_nil_blank (s : jsstring) : trimStart s = [] <-> blank s.
Proof.
  unfold blank. induction s as [|c r IH]; simpl.
  - split; auto.
  - destruct (is_white_space c) eqn:Ec.
    + rewrite IH. split; intros H.
      * constructor; assumption.
      * inversion H; assumption.
    + split; intros H; [discriminate|].
      inversion H; congruence.
Qed.

Lemma trimStart_head (s : jsstring) :
  trimStart s = [] \/
  exists c r, trimStart s = c :: r /\ is_white_space c = false.
Proof.
  induction s as [|c r IH]; simpl; [left; reflexivity|].
  destruct (is_white_space c) eqn:Ec; [exact IH|].
  right. exists c, r. split; [reflexivity|exact Ec].
Qed.

(** [post.trim()] is falsy exactly on the strings made of white space. *)
Lemma trim_nil_blank (s : jsstring) : trim s = [] <-> blank s.
Proof.
  unfold trim, trimEnd. split.
  - intros H.
    assert (Hr : trimStart (rev (trimStart s)) = []).
    { apply (f_equal (@rev code_unit)) in H.
      rewrite rev_involutive in H. exact H. }
    apply trimStart_nil_blank in Hr. unfold blank in Hr.
    apply Forall_rev in Hr. rewrite rev_involutive in Hr.
    destruct (trimStart_head s) as [E|[c [r [E Ec]]]].
    + apply trimStart_nil_blank. exact E.
    + rewrite E in Hr. inversion Hr; congruence.
  - intros H. apply trimStart_nil_blank in H. rewrite H. reflexivity.
Qed.

Lemma truthy_trim (s : jsstring) : truthy (trim s) = true <-> ~ blank s.
Proof.
  rewrite <- trim_nil_blank. destruct (trim s); simpl; split; intros H;
    congruence.
Qed.

Lemma filter_trim_In (a : list (option jsstring)) (p : jsstring) :
  In p (filter_trim a) <-> In (Some p) a /\ ~ blank p.
Proof.
  induction a as [|[q|] r IH]; simpl.
  - tauto.
  - destruct (truthy (trim q)) eqn:Eq; simpl; rewrite IH.
    + apply truthy_trim in Eq. split.
      * intros [->|[H1 H2]]; auto.
      * intros [[H|H] Hb]; [inversion H; auto|auto].
    + split.
      * intros [H1 H2]; auto.
      * intros [[H|H] Hb]; [|auto].
        inversion H; subst. apply truthy_trim in Hb. congruence.
  - rewrite IH. split.
    + intros [H1 H2]; auto.
    + intros [[H|H] Hb]; [discriminate|auto].
Qed.

Lemma filter_trim_Subseq (a : list (option jsstring)) :
  Subseq (map Some (filter_trim a)) a.
Proof.
  induction a as [|[q|] r IH]; simpl.
  - constructor.
  - destruct (truthy (trim q)); simpl; constructor; exact IH.
  - constructor; exact IH.
Qed.

Lemma filter_trim_length (a : list (option jsstring)) :
  length (filter_trim a) <= length a.
Proof.
  induction a as [|[q|] r IH]; simpl; [lia| |lia].
  destruct (truthy (trim q)); simpl; lia.
Qed.

Lemma blank_forallb (s : jsstring) :
  blank s <-> forallb is_white_space s = true.
Proof.
  unfold blank. rewrite forallb_forall, Forall_forall. reflexivity.
Qed.

Lemma truthy_trim_forallb (s : jsstring) :
  truthy (trim s) = negb (forallb is_white_space s).
Proof.
  destruct (forallb is_white_space s) eqn:E; simpl.
  - apply blank_forallb in E. apply trim_nil_blank in E. rewrite E.
    reflexivity.
  - apply truthy_trim. intros Hb. apply blank_forallb in Hb. congruence.
Qed.

(** The filter of [publishContent] keeps every slot that holds a text that
    is not blank, as often as it occurs and in the order of the list, and
    nothing else. *)
Lemma filter_trim_non_blank_slots (a : list (option jsstring)) :
  map Some (filter_trim a) = non_blank_slots a.
Proof.
  unfold non_blank_slots. induction a as [|[q|] r IH]; simpl.
  - reflexivity.
  - rewrite truthy_trim_forallb.
    destruct (negb (forallb is_white_space q)); simpl; rewrite IH;
      reflexivity.
  - exact IH.
Qed.

(** What [publishContent] submits is the beginning of the filtered list. *)
Lemma publishContent_prefix W (R : Remote W) settings t s :
  let valid := filter_trim (posts t) in
  let tr := snd (publishContent R settings t s) in
  (exists rest, valid = submitted_texts tr ++ rest) /\
  (forall s1 tr1,
      isPosting t = false ->
      publish_valid R settings valid s = (Resolved tt, s1, tr1) ->
      submitted_texts tr = valid).
Proof.
  intros valid tr. subst tr valid.
  destruct (publishContent_inv W R settings t s)
    as [[Hrun Hwhy]|(Hp & Hne & r1 & s1 & tr1 & Hv & Hrun)].
  - rewrite Hrun. simpl. split; [eexists; reflexivity|].
    intros s1 tr1 Hp Hv. destruct Hwhy as [Hw|Hw]; [congruence|].
    rewrite Hw. reflexivity.
  - simpl in Hrun. rewrite Hrun. simpl.
    rewrite !submitted_texts_app.
    assert (Hmid : submitted_texts
              (match r1 with
               | Resolved _ => []
               | Rejected e => [EvConsoleError (js "Failed to post:") e]
               end) = []) by (destruct r1; reflexivity).
    rewrite Hmid. simpl. rewrite app_nil_r.
    destruct (publish_valid_prefix W R _ _ _ _ _ _ Hv) as [Hrest Hall].
    split; [exact Hrest|].
    intros s2 tr2 _ Hv2. rewrite Hv2 in Hv. inversion Hv; subst.
    apply (Hall tt). reflexivity.
Qed.

(** *** C9 *)

(** C9. [publishContent] works on the segments of the tab whose trimmed text
    is not empty: all of them and only them, each as often as it occurs, in
    the order they have in the tab.  What it submits is the beginning of
    that filtered list, all of it when publishing succeeds.  No blank
    segment is ever submitted, and the submissions can be fewer than the
    segments of the tab. *)
Theorem publishContent_filters_blank W (R : Remote W) :
  forall settings t s,
    let valid := filter_trim (posts t) in
    let tr := snd (publishContent R settings t s) in
    map Some valid = non_blank_slots (posts t) /\
    (forall p, In p valid <-> In (Some p) (posts t) /\ ~ blank p) /\
    Subseq (map Some valid) (posts t) /\
    (exists rest, valid = submitted_texts tr ++ rest) /\
    Forall (fun p => ~ blank p) (submitted_texts tr) /\
    length (submitted_texts tr) <= length (posts t) /\
    (forall s1 tr1,
        isPosting t = false ->
        publish_valid R settings valid s = (Resolved tt, s1, tr1) ->
        submitted_texts tr = valid).
Proof.
  intros settings t s valid tr.
  pose proof (publishContent_prefix W R settings t s) as Hpre.
  cbv zeta in Hpre. fold valid in Hpre. fold tr in Hpre.
  destruct Hpre as [[rest Hrest] Hall].
  split; [apply filter_trim_non_blank_slots|].
  split; [intros p; apply filter_trim_In|].
  split; [apply filter_trim_Subseq|].
  split; [exists rest; exact Hrest|].
  split.
  - apply Forall_forall. intros p Hin.
    apply (filter_trim_In (posts t) p). fold valid. rewrite Hrest.
    apply in_or_app. left. exact Hin.
  - split; [|exact Hall].
    pose proof (filter_trim_length (posts t)) as Hlen. fold valid in Hlen.
    rewrite Hrest, length_app in Hlen. lia.
Qed.

(** A tab with the same text twice and a blank segment in between: the
    text is submitted twice, the blank segment is not. *)
Lemma publishContent_filters_blank_witness :
  isPosting Demo.tab_repeated = false /\
  fst (fst (publish_valid Demo.reliable Demo.credentials
              (filter_trim (posts Demo.tab_repeated)) Demo.start))
  = Resolved tt /\
  submitted_texts
    (snd (publishContent Demo.reliable Demo.credentials Demo.tab_repeated
            Demo.start))
  = [js "Same text"; js "Same text"].
Proof.
  split; [reflexivity|]. split; [vm_compute; reflexivity|].
  destruct (publishContent_filters_blank nat Demo.reliable Demo.credentials
              Demo.tab_repeated Demo.start)
    as (_ & _ & _ & _ & _ & _ & Hall).
  rewrite (Hall (snd (fst (publish_valid Demo.reliable Demo.credentials
                             (filter_trim (posts Demo.tab_repeated))
                             Demo.start)))
             (snd (publish_valid Demo.reliable Demo.credentials
                     (filter_trim (posts Demo.tab_repeated)) Demo.start))).
  - vm_compute; reflexivity.
  - reflexivity.
  - vm_compute; reflexivity.
Defined.

(** *** C8 *)

Lemma record_calls_app (t1 t2 : list Event) :
  record_calls (t1 ++ t2) = record_calls t1 ++ record_calls t2.
Proof.
  induction t1 as [|e t1 IH]; simpl; [reflexivity|].
  destruct e; simpl; rewrite IH; reflexivity.
Qed.

(** C8. When the tab holds exactly one segment that is not blank and
    [login] is accepted with a session that has a [did], [publishContent]
    issues exactly one submission: one [createRecord] whose record carries
    the text of that segment and the creation time, with no reply in it, and
    no call of [agent.post]. *)
Theorem publishContent_single_post W (R : Remote W) :
  forall settings t s txt w1 sess,
    isPosting t = false ->
    filter_trim (posts t) = [txt] ->
    blueskyIdentifier settings <> [] ->
    blueskyAppPassword settings <> [] ->
    remote_login R (world s) (blueskyIdentifier settings)
      (blueskyAppPassword settings) = (w1, Resolved sess) ->
    session_did sess <> [] ->
    let tr := snd (publishContent R settings t s) in
    (exists res,
        record_calls tr
        = [({| repo := session_did sess;
               collection := js "app.bsky.feed.post";
               record_text := txt;
               record_createdAt := remote_now R w1 |}, res)]) /\
    post_calls tr = [] /\
    submitted_texts tr = [txt].
Proof.
  intros settings t s txt w1 sess Hp Hv Hi Hpw Hl Hd tr. subst tr.
  destruct (publishContent_inv W R settings t s)
    as [[_ [Hw|Hw]]|(_ & _ & r1 & s1 & tr1 & Hpv & Hrun)]; try congruence.
  simpl in Hrun. rewrite Hrun. clear Hrun. rewrite Hv in Hpv.
  unfold publish_valid, bind in Hpv.
  rewrite (login_accepted W R settings s w1 sess Hi Hpw Hl) in Hpv.
  destruct (createPost_with_session W R txt
              {| world := w1; agent := {| session := Some sess |} |} sess
              eq_refl Hd)
    as (r & s' & tr0 & res & Hc & Hrec & Hpost & Hsub).
  rewrite Hc in Hpv. inversion Hpv; subst. clear Hpv.
  assert (Hmid : forall r1 : Outcome unit,
             record_calls (match r1 with
                           | Resolved _ => []
                           | Rejected e =>
                               [EvConsoleError (js "Failed to post:") e]
                           end) = [] /\
             post_calls (match r1 with
                         | Resolved _ => []
                         | Rejected e =>
                             [EvConsoleError (js "Failed to post:") e]
                         end) = [] /\
             submitted_texts (match r1 with
                              | Resolved _ => []
                              | Rejected e =>
                                  [EvConsoleError (js "Failed to post:") e]
                              end) = [])
    by (intros [u|e]; repeat split).
  destruct (Hmid r1) as (M1 & M2 & M3).
  simpl.
  rewrite record_calls_app, post_calls_app, submitted_texts_app.
  rewrite record_calls_app, post_calls_app, submitted_texts_app.
  rewrite Hrec, Hpost, Hsub, M1, M2, M3. simpl.
  split; [exists res; reflexivity|]. split; reflexivity.
Qed.

(** The scenario of the specification: one segment, [Hello world]. *)
Lemma publishContent_single_post_witness :
  filter_trim (posts Demo.tab_hello) = [js "Hello world"] /\
  post_calls
    (snd (publishContent Demo.reliable Demo.credentials Demo.tab_hello
            Demo.start)) = [] /\
  submitted_texts
    (snd (publishContent Demo.reliable Demo.credentials Demo.tab_hello
            Demo.start)) = [js "Hello world"].
Proof.
  assert (Hv : filter_trim (posts Demo.tab_hello) = [js "Hello world"])
    by (vm_compute; reflexivity).
  assert (Hne : forall (c : code_unit) l, c :: l <> []) by (intros; congruence).
  split; [exact Hv|].
  exact (proj2 (publishContent_single_post nat Demo.reliable Demo.credentials
                  Demo.tab_hello Demo.start (js "Hello world") 0
                  {| session_did := js "did:plc:demo" |}
                  eq_refl Hv (Hne _ _) (Hne _ _) eq_refl (Hne _ _))).
Defined.

(** *** The list of the tab *)

Lemma Forall_take {A} (P : A -> Prop) n (l : list A) :
  Forall P l -> Forall P (firstn n l).
Proof.
  revert l. induction n as [|n IH]; intros l H; simpl; [constructor|].
  destruct l as [|x l]; [constructor|].
  inversion H; subst. constructor; auto.
Qed.

Lemma Forall_drop {A} (P : A -> Prop) n (l : list A) :
  Forall P l -> Forall P (skipn n l).
Proof.
  revert l. induction n as [|n IH]; intros l H; simpl; [exact H|].
  destruct l as [|x l]; [constructor|].
  inversion H; subst. auto.
Qed.

Lemma array_set_nth i v a : nth_error (array_set i v a) i = Some (Some v).
Proof.
  unfold array_set. destruct (i <? length a) eqn:E.
  - apply Nat.ltb_lt in E.
    rewrite nth_error_app2 by (rewrite length_firstn; lia).
    rewrite length_firstn. replace (i - min i (length a)) with 0 by lia.
    reflexivity.
  - apply Nat.ltb_ge in E.
    rewrite nth_error_app2 by lia.
    rewrite nth_error_app2 by (rewrite repeat_length; lia).
    rewrite repeat_length.
    replace (i - length a - (i - length a)) with 0 by lia.
    reflexivity.
Qed.

Lemma array_set_not_nil i v a : array_set i v a <> [].
Proof.
  intros H. pose proof (array_set_nth i v a) as Hn. rewrite H in Hn.
  destruct i; discriminate.
Qed.

Lemma array_set_within_limit i v a :
  length v <= MAX_CHARS -> within_limit a -> within_limit (array_set i v a).
Proof.
  unfold within_limit, array_set. intros Hv Ha.
  destruct (i <? length a).
  - apply Forall_app. split; [apply Forall_take; exact Ha|].
    constructor; [exact Hv|apply Forall_drop; exact Ha].
  - apply Forall_app. split; [exact Ha|].
    apply Forall_app. split.
    + apply Forall_forall. intros o Ho. apply repeat_spec in Ho. subst o.
      exact I.
    + constructor; [exact Hv|constructor].
Qed.

Lemma splice1_length i a :
  length a - 1 <= length (splice1 i a).
Proof.
  unfold splice1. rewrite length_app, length_firstn, length_skipn. lia.
Qed.

Lemma removePost_not_nil index t :
  posts t <> [] -> posts (removePost index t) <> [].
Proof.
  intros H. unfold removePost.
  destruct (length (posts t) =? 1) eqn:E; [exact H|].
  apply Nat.eqb_neq in E. simpl.
  pose proof (splice1_length index (posts t)) as Hl.
  destruct (posts t) as [|x l] eqn:Ep; [congruence|].
  simpl in E, Hl. intros Hnil. rewrite Hnil in Hl. simpl in Hl.
  destruct l; simpl in *; [congruence|lia].
Qed.

(** [publishContent] always resolves, and leaves the list as it was or as
    the single empty segment. *)
Lemma publishContent_posts W (R : Remote W) settings t s :
  exists t' s' tr,
    publishContent R settings t s = (Resolved t', s', tr) /\
    (posts t' = posts t \/ posts t' = [Some (js "")]).
Proof.
  destruct (publishContent_inv W R settings t s)
    as [[Hrun _]|(_ & _ & r1 & s1 & tr1 & _ & Hrun)].
  - do 3 eexists. split; [exact Hrun|left; reflexivity].
  - simpl in Hrun. do 3 eexists. split; [exact Hrun|].
    destruct r1; simpl; auto.
Qed.

Lemma initial_tab_inv : tab_inv initial_tab.
Proof.
  split; [discriminate|].
  constructor; [unfold MAX_CHARS; simpl; lia|constructor].
Qed.

Lemma tab_step_inv W (R : Remote W) a c :
  tab_inv (fst c) -> tab_inv (fst (tab_step R a c)).
Proof.
  destruct c as [t s]. cbn [fst]. intros [Hne Hlim].
  destruct a as [index value| |index|settings]; unfold tab_step; cbn [fst].
  - split; unfold handlePostChange; cbn [posts].
    + apply array_set_not_nil.
    + apply array_set_within_limit; [|exact Hlim].
      unfold slice0. apply firstn_le_length.
  - split; unfold addPost; cbn [posts].
    + destruct (posts t); discriminate.
    + apply Forall_app. split; [exact Hlim|].
      constructor; [unfold MAX_CHARS; simpl; lia|constructor].
  - split; [apply removePost_not_nil; exact Hne|].
    unfold removePost. destruct (length (posts t) =? 1); [exact Hlim|].
    cbn [posts]. unfold splice1. apply Forall_app.
    split; [apply Forall_take|apply Forall_drop]; exact Hlim.
  - destruct (publishContent_posts W R settings t s)
      as (t' & s' & tr & Hrun & Hposts).
    rewrite Hrun. cbn [fst]. unfold tab_inv.
    destruct Hposts as [-> | ->]; [split; assumption|].
    exact initial_tab_inv.
Qed.

Lemma tab_run_inv W (R : Remote W) acts :
  forall c, tab_inv (fst c) -> tab_inv (fst (tab_run R acts c)).
Proof.
  unfold tab_run. induction acts as [|a acts IH]; intros c H; simpl.
  - exact H.
  - apply IH. apply tab_step_inv. exact H.
Qed.

(** *** C7 *)

(** A run of the loop submits every segment, unless the service refuses a
    detection or a submission: nothing else stops it. *)
Lemma thread_run_all_or_refused segs rootPost lastPost r tr :
  thread_run segs rootPost lastPost r tr ->
  (r = Resolved tt /\ submitted_texts tr = segs) \/
  (exists k txt e,
      nth_error (detect_calls tr) k = Some (txt, Rejected e) /\
      r = Rejected e /\ submitted_texts tr = firstn k segs) \/
  (exists k a e,
      nth_error (post_calls tr) k = Some (a, Rejected e) /\
      r = Rejected e /\ submitted_texts tr = firstn (S k) segs).
Proof.
  induction 1 as [rootPost lastPost|txt rest rootPost lastPost e
                 |txt rest rootPost lastPost fs e
                 |txt rest rootPost lastPost fs ref r tr H IH].
  - left. split; reflexivity.
  - right. left. exists 0, txt, e. repeat split.
  - right. right. exists 0, (thread_args txt rootPost lastPost fs), e.
    repeat split.
  - destruct IH as [[-> Ht]|[(k & t0 & e & Hn & -> & Ht)
                            |(k & a & e & Hn & -> & Ht)]].
    + left. split; [reflexivity|]. simpl. rewrite Ht. reflexivity.
    + right. left. exists (S k), t0, e.
      split; [exact Hn|]. split; [reflexivity|].
      simpl. rewrite Ht. reflexivity.
    + right. right. exists (S k), a, e.
      split; [exact Hn|]. split; [reflexivity|].
      simpl. rewrite Ht. reflexivity.
Qed.

(** C7, as the code has it.  The limit of 300 is kept by the tab alone:
    [handlePostChange] stores the first 300 code units of what was typed, so
    every text [publishContent] submits from a tab is within the limit.
    [createPost] and [createThread] neither cut a text nor refuse one for
    its length.  Under a session with a [did], [createPost] sends the text
    it is given in its one [createRecord], and settles as the service
    answers; without one it sends nothing.  [createThread] submits every
    segment as it is given, in order, and stops only where the service
    refuses a detection or a submission, with the error of the service. *)
Theorem tab_limits_segment_length W (R : Remote W) :
  (forall index value t,
      nth_error (posts (handlePostChange index value t)) index
      = Some (Some (slice0 MAX_CHARS value)) /\
      length (slice0 MAX_CHARS value) <= MAX_CHARS) /\
  (forall acts s0 settings,
      let c := tab_run R acts (initial_tab, s0) in
      Forall (fun p => length p <= MAX_CHARS)
        (submitted_texts (snd (publishContent R settings (fst c) (snd c))))) /\
  (forall txt s,
      submitted_texts (snd (createPost R txt s)) = [] \/
      submitted_texts (snd (createPost R txt s)) = [txt]) /\
  (forall segs s,
      exists rest,
        segs = submitted_texts (snd (createThread R segs s)) ++ rest) /\
  (forall txt s,
      submitted_texts (snd (createPost R txt s))
      = match session_did_opt (session (agent s)) with
        | Some (_ :: _) => [txt]
        | _ => []
        end) /\
  (forall txt s sess,
      session (agent s) = Some sess ->
      session_did sess <> [] ->
      let args := {| repo := session_did sess;
                     collection := js "app.bsky.feed.post";
                     record_text := txt;
                     record_createdAt := remote_now R (world s) |} in
      let answer := snd (remote_createRecord R (world s) args) in
      record_calls (snd (createPost R txt s)) = [(args, answer)] /\
      fst (fst (createPost R txt s))
      = match answer with
        | Resolved _ => Resolved tt
        | Rejected e => Rejected e
        end) /\
  (forall segs s,
      let run := createThread R segs s in
      (fst (fst run) = Resolved tt /\ submitted_texts (snd run) = segs) \/
      (exists k txt e,
          nth_error (detect_calls (snd run)) k = Some (txt, Rejected e) /\
          fst (fst run) = Rejected e /\
          submitted_texts (snd run) = firstn k segs) \/
      (exists k a e,
          nth_error (post_calls (snd run)) k = Some (a, Rejected e) /\
          fst (fst run) = Rejected e /\
          submitted_texts (snd run) = firstn (S k) segs)).
Proof.
  split; [|split; [|split; [|split; [|split; [|split]]]]].
  - intros index value t. split.
    + unfold handlePostChange. cbn [posts]. apply array_set_nth.
    + unfold slice0. apply firstn_le_length.
  - intros acts s0 settings c.
    destruct (tab_run_inv W R acts (initial_tab, s0) initial_tab_inv)
      as [_ Hlim].
    fold c in Hlim.
    destruct (publishContent_prefix W R settings (fst c) (snd c))
      as [[rest Hrest] _].
    apply Forall_forall. intros p Hin.
    assert (Hv : In p (filter_trim (posts (fst c))))
      by (rewrite Hrest; apply in_or_app; left; exact Hin).
    apply filter_trim_In in Hv. destruct Hv as [Hv _].
    unfold within_limit in Hlim. rewrite Forall_forall in Hlim.
    exact (Hlim _ Hv).
  - intros txt s.
    destruct (createPost R txt s) as [[r s'] tr] eqn:E.
    destruct (createPost_trace W R txt s r s' tr E) as (_ & Hor & _).
    exact Hor.
  - intros segs s.
    destruct (createThread R segs s) as [[r s'] tr] eqn:E.
    destruct (createThread_prefix W R segs s r s' tr E) as [Hrest _].
    exact Hrest.
  - intros txt s.
    unfold createPost, try_catch, bind, get_session, now, createRecord,
      Notice, console_error, emit, throw, ret.
    destruct (session_did_opt (session (agent s))) as [[|c d]|]; simpl;
      try reflexivity.
    destruct (remote_createRecord R (world s) _) as [w1 [u|e]]; reflexivity.
  - intros txt s sess Hs Hd args answer. subst args answer.
    unfold createPost, try_catch, bind, get_session, now, createRecord,
      Notice, console_error, emit, throw, ret.
    rewrite Hs. simpl.
    destruct (session_did sess) as [|c d]; [congruence|]. simpl.
    destruct (remote_createRecord R (world s) _) as [w1 [[]|e]]; simpl;
      split; reflexivity.
  - intros segs s run. subst run.
    destruct (createThread R segs s) as [[r s'] tr] eqn:E. cbn [fst snd].
    destruct segs as [|txt rest].
    + unfold createThread, ret in E. inversion E; subst.
      left. split; reflexivity.
    + assert (Hne : txt :: rest <> []) by discriminate.
      destruct (createThread_inv W R _ s r s' tr Hne E)
        as [r0 [tr0 [Hrun Hr]]].
      destruct (thread_run_all_or_refused _ _ _ _ _ Hrun)
        as [[-> Ht]|[(k & t0 & e & Hn & -> & Ht)
                    |(k & a & e & Hn & -> & Ht)]].
      * destruct Hr as [-> ->]. left. split; [reflexivity|].
        rewrite submitted_texts_app, Ht. cbn [submitted_texts].
        apply app_nil_r.
      * destruct Hr as [-> ->]. right. left. exists k, t0, e.
        split; [exact Hn|]. split; [reflexivity|exact Ht].
      * destruct Hr as [-> ->]. right. right. exists k, a, e.
        split; [exact Hn|]. split; [reflexivity|exact Ht].
Qed.

(** A text of 301 code units under a session: [createPost] sends all of it
    in its [createRecord] and resolves. *)
Lemma tab_limits_segment_length_witness :
  record_calls (snd (createPost Demo.reliable Demo.oversized Demo.logged_in))
  = [({| repo := js "did:plc:demo";
         collection := js "app.bsky.feed.post";
         record_text := Demo.oversized;
         record_createdAt := js "2024-11-20T10:00:00.000Z" |}, Resolved tt)] /\
  fst (fst (createPost Demo.reliable Demo.oversized Demo.logged_in))
  = Resolved tt.
Proof.
  assert (Hne : forall (c : code_unit) l, c :: l <> []) by (intros; congruence).
  destruct (tab_limits_segment_length nat Demo.reliable)
    as (_ & _ & _ & _ & _ & Hpost & _).
  exact (Hpost Demo.oversized Demo.logged_in
           {| session_did := js "did:plc:demo" |} eq_refl (Hne _ _)).
Defined.

(** C7 as stated fails, for either entry of the core: called with a text of
    301 code units, [createPost] submits all of it, and so does
    [createThread] for a segment of 301 code units. *)
Lemma core_submits_oversized_text :
  ~ createPost_respects_limit Demo.reliable /\
  ~ createThread_respects_limit Demo.reliable /\
  ~ core_respects_limit Demo.reliable.
Proof.
  assert (Hp : ~ createPost_respects_limit Demo.reliable).
  { intros H. specialize (H Demo.oversized Demo.logged_in).
    apply Forall_inv in H. vm_compute in H. lia. }
  assert (Ht : ~ createThread_respects_limit Demo.reliable).
  { intros H.
    specialize (H [Demo.oversized; js "Reply one"] Demo.logged_in).
    apply Forall_inv in H. vm_compute in H. lia. }
  split; [exact Hp|]. split; [exact Ht|].
  intros [H _]. exact (Hp H).
Qed.

(** The command that posts the selected text reaches [createPost] without
    the tab: a selection of 301 code units is submitted whole. *)
Example createBlueskyPost_submits_selection :
  submitted_texts
    (snd (createBlueskyPost Demo.reliable Demo.credentials Demo.oversized
            Demo.start))
  = [Demo.oversized] /\
  length Demo.oversized = 301.
Proof. split; vm_compute; reflexivity. Qed.

(** *** C10 *)

(** C10. The list of segments of the tab is never empty: a fresh tab holds
    one empty segment, [addPost] appends one, [removePost] does nothing to a
    list of one, [publishContent] leaves the single empty segment when
    publishing succeeded and the list as it was when it did not run or
    failed, and no handler applied to a non-empty list gives an empty one,
    so that every list reached from a fresh tab is non-empty. *)
Theorem tab_posts_never_empty W (R : Remote W) :
  posts initial_tab = [Some (js "")] /\
  (forall t, posts (addPost t) = posts t ++ [Some (js "")]) /\
  (forall index t, length (posts t) = 1 -> removePost index t = t) /\
  (forall settings t s r1 s1 tr1,
      isPosting t = false ->
      filter_trim (posts t) <> [] ->
      publish_valid R settings (filter_trim (posts t)) s = (r1, s1, tr1) ->
      fst (fst (publishContent R settings t s))
      = Resolved {| posts := match r1 with
                             | Resolved _ => [Some (js "")]
                             | Rejected _ => posts t
                             end;
                    isPosting := false |}) /\
  (forall settings t s,
      isPosting t = true \/ filter_trim (posts t) = [] ->
      fst (fst (publishContent R settings t s)) = Resolved t) /\
  (forall a t s, posts t <> [] -> posts (fst (tab_step R a (t, s))) <> []) /\
  (forall acts s0, posts (fst (tab_run R acts (initial_tab, s0))) <> []).
Proof.
  split; [reflexivity|]. split; [reflexivity|].
  split.
  { intros index t H. unfold removePost. rewrite H. reflexivity. }
  split.
  { intros settings t s r1 s1 tr1 Hp Hne Hv.
    destruct (publishContent_inv W R settings t s)
      as [[_ [Hw|Hw]]|(_ & _ & r2 & s2 & tr2 & Hv2 & Hrun)]; try congruence.
    cbv zeta in Hrun. rewrite Hrun. rewrite Hv in Hv2. inversion Hv2; subst.
    reflexivity. }
  split.
  { intros settings t s Hw. unfold publishContent.
    destruct Hw as [Hw|Hw].
    - rewrite Hw. reflexivity.
    - destruct (isPosting t); [reflexivity|]. rewrite Hw. reflexivity. }
  split.
  { intros a t s Hne. destruct a as [index value| |index|settings];
      unfold tab_step; cbn [fst].
    - unfold handlePostChange. cbn [posts]. apply array_set_not_nil.
    - unfold addPost. cbn [posts]. destruct (posts t); discriminate.
    - apply removePost_not_nil. exact Hne.
    - destruct (publishContent_posts W R settings t s)
        as (t' & s' & tr & Hrun & Hposts).
      rewrite Hrun. cbn [fst].
      destruct Hposts as [-> | ->]; [exact Hne|discriminate]. }
  intros acts s0.
  exact (proj1 (tab_run_inv W R acts (initial_tab, s0) initial_tab_inv)).
Qed.

(** A tab of two segments whose second submission is refused keeps its two
    segments; the same tab on a service that refuses nothing is left with
    the single empty segment; removing from a fresh tab changes nothing. *)
Lemma tab_posts_never_empty_witness :
  fst (fst (publishContent Demo.refusing Demo.credentials Demo.tab_two
              Demo.start))
  = Resolved Demo.tab_two /\
  fst (fst (publishContent Demo.reliable Demo.credentials Demo.tab_two
              Demo.start))
  = Resolved initial_tab /\
  removePost 0 initial_tab = initial_tab.
Proof.
  assert (Hne : filter_trim (posts Demo.tab_two) <> [])
    by (vm_compute; discriminate).
  split; [|split].
  - destruct (tab_posts_never_empty nat Demo.refusing)
      as (_ & _ & _ & Hpub & _).
    rewrite (Hpub Demo.credentials Demo.tab_two Demo.start
               (Rejected Demo.network_error)
               {| world := 1; agent := agent Demo.logged_in |}
               (snd (publish_valid Demo.refusing Demo.credentials
                       (filter_trim (posts Demo.tab_two)) Demo.start))
               eq_refl Hne).
    + reflexivity.
    + vm_compute; reflexivity.
  - destruct (tab_posts_never_empty nat Demo.reliable)
      as (_ & _ & _ & Hpub & _).
    rewrite (Hpub Demo.credentials Demo.tab_two Demo.start (Resolved tt)
               {| world := 2; agent := agent Demo.logged_in |}
               (snd (publish_valid Demo.reliable Demo.credentials
                       (filter_trim (posts Demo.tab_two)) Demo.start))
               eq_refl Hne).
    + reflexivity.
    + vm_compute; reflexivity.
  - destruct (tab_posts_never_empty nat Demo.reliable) as (_ & _ & Hrm & _).
    apply Hrm. reflexivity.
Defined.

(** ** Further properties of [BlueskyBot] *)

(** X1. Without a session, or with a session whose [did] is empty,
    [createPost] calls nothing on the remote service: it logs the error,
    shows the notice of the failure and is rejected with [Not logged in],
    the state as it was. *)
Theorem createPost_not_logged_in W (R : Remote W) :
  forall txt s,
    session_did_opt (session (agent s)) = None \/
    session_did_opt (session (agent s)) = Some [] ->
    createPost R txt s
    = (Rejected not_logged_in, s,
       [EvConsoleError (js "Failed to post:") not_logged_in;
        EvNotice (js "Failed to post: Not logged in")]).
Proof.
  intros txt s H.
  unfold createPost, try_catch, bind, get_session. cbn [fst snd].
  destruct H as [H|H]; rewrite H; reflexivity.
Qed.

Lemma createPost_not_logged_in_witness :
  createPost Demo.reliable (js "Hello world") Demo.start
  = (Rejected not_logged_in, Demo.start,
     [EvConsoleError (js "Failed to post:") not_logged_in;
      EvNotice (js "Failed to post: Not logged in")]).
Proof.
  exact (createPost_not_logged_in nat Demo.reliable (js "Hello world")
           Demo.start (or_introl eq_refl)).
Defined.

(** X2. Every call of [createPost] shows exactly one notice, and the notice
    tells how the call settled: the success notice when it resolved, the
    message of the error it is rejected with otherwise. *)
Theorem createPost_one_notice W (R : Remote W) :
  forall txt s,
    notices (snd (createPost R txt s))
    = [match fst (fst (createPost R txt s)) with
       | Resolved _ => posted_notice
       | Rejected e => js "Failed to post: " ++ message e
       end].
Proof.
  intros txt s.
  unfold createPost, try_catch, bind, get_session, now, createRecord, Notice,
    console_error, emit, throw, ret.
  destruct (session_did_opt (session (agent s))) as [[|c d]|]; simpl;
    try reflexivity.
  destruct (remote_createRecord R (world s) _) as [w1 [u|e]]; reflexivity.
Qed.

(** X3. [createPost] calls [createRecord] at most once, resolves exactly
    when that call was accepted, and is rejected with the error of the
    service, as it is, when the call was refused. *)
Theorem createPost_settles_as_createRecord W (R : Remote W) :
  forall txt s,
    let run := createPost R txt s in
    length (record_calls (snd run)) <= 1 /\
    (fst (fst run) = Resolved tt <->
     exists a, record_calls (snd run) = [(a, Resolved tt)]) /\
    (forall a e, record_calls (snd run) = [(a, Rejected e)] ->
                 fst (fst run) = Rejected e).
Proof.
  intros txt s run. subst run.
  unfold createPost, try_catch, bind, get_session, now, createRecord, Notice,
    console_error, emit, throw, ret.
  destruct (session_did_opt (session (agent s))) as [[|c d]|]; simpl.
  - split; [lia|]. split; [split|]; intros; try discriminate.
    destruct H; discriminate.
  - destruct (remote_createRecord R (world s) _) as [w1 [[]|e]]; simpl.
    + split; [lia|]. split; [split; [eexists|]; reflexivity|].
      intros; discriminate.
    + split; [lia|]. split; [split|].
      * intros; discriminate.
      * intros [a H]; discriminate.
      * intros a e0 H. inversion H; reflexivity.
  - split; [lia|]. split; [split|]; intros; try discriminate.
    destruct H; discriminate.
Qed.

(** A post refused by the service: the rejection is the service's. *)
Lemma createPost_settles_as_createRecord_witness :
  fst (fst (createPost Demo.refusing (js "Reply one") Demo.logged_in))
  = Rejected Demo.network_error.
Proof.
  refine (proj2 (proj2 (createPost_settles_as_createRecord nat Demo.refusing
                          (js "Reply one") Demo.logged_in))
            {| repo := js "did:plc:demo";
               collection := js "app.bsky.feed.post";
               record_text := js "Reply one";
               record_createdAt := js "2024-11-20T10:00:00.000Z" |}
            Demo.network_error _).
  vm_compute. reflexivity.
Defined.

Lemma createThread_notices W (R : Remote W) segs s r s' tr :
  createThread R segs s = (r, s', tr) ->
  segs <> [] ->
  match r with
  | Resolved _ =>
      exists tr0,
        tr = tr0 ++ [EvNotice posted_notice] /\
        notices tr0 = [] /\ submitted_texts tr0 = segs
  | Rejected _ => notices tr = []
  end.
Proof.
  intros H Hne.
  destruct (createThread_inv W R segs s r s' tr Hne H) as [r0 [tr0 [Hrun Hr]]].
  pose proof (thread_run_no_notice _ _ _ _ _ Hrun) as Hn.
  destruct r0 as [u|e].
  - destruct Hr as [-> ->]. exists tr0.
    split; [reflexivity|]. split; [exact Hn|].
    exact (thread_run_resolved_texts _ _ _ _ _ Hrun).
  - destruct Hr as [-> ->]. exact Hn.
Qed.

(** X4. On one segment or more, [createThread] shows the success notice
    only when it resolves, once, as its last event and after every segment
    was submitted; when it is rejected it shows no notice at all. *)
Theorem createThread_notice_last W (R : Remote W) :
  forall segs s r s' tr,
    createThread R segs s = (r, s', tr) ->
    segs <> [] ->
    match r with
    | Resolved _ =>
        exists tr0,
          tr = tr0 ++ [EvNotice posted_notice] /\
          notices tr0 = [] /\ submitted_texts tr0 = segs
    | Rejected _ => notices tr = []
    end.
Proof. intros segs s r s' tr. apply createThread_notices. Qed.

Lemma createThread_notice_last_witness :
  notices (snd (createThread Demo.reliable Demo.scenario Demo.logged_in))
  = [posted_notice] /\
  notices (snd Demo.refused_run) = [].
Proof.
  assert (Hne : Demo.scenario <> []) by discriminate.
  split.
  - destruct (createThread_notice_last nat Demo.reliable Demo.scenario
                Demo.logged_in (Resolved tt)
                {| world := 3; agent := agent Demo.logged_in |}
                (snd (createThread Demo.reliable Demo.scenario Demo.logged_in))
                eq_refl Hne) as (tr0 & Htr & Hn & _).
    rewrite Htr, notices_app, Hn. reflexivity.
  - exact (createThread_notice_last nat Demo.refusing Demo.scenario
             Demo.logged_in (Rejected Demo.network_error)
             {| world := 1; agent := agent Demo.logged_in |}
             (snd Demo.refused_run) eq_refl Hne).
Defined.

Lemma thread_run_facets segs rootPost lastPost r tr :
  thread_run segs rootPost lastPost r tr ->
  forall i a res,
    nth_error (post_calls tr) i = Some (a, res) ->
    nth_error (detect_calls tr) i
    = Some (post_text a, Resolved (post_facets a)).
Proof.
  induction 1 as [rootPost lastPost|txt rest rootPost lastPost e
                 |txt rest rootPost lastPost fs e
                 |txt rest rootPost lastPost fs ref r tr H IH];
    intros i a res Hn; simpl in Hn.
  - destruct i; discriminate.
  - destruct i; discriminate.
  - destruct i as [|[|i]]; try discriminate.
    inversion Hn; subst. reflexivity.
  - destruct i as [|i].
    + inversion Hn; subst. reflexivity.
    + simpl. exact (IH i a res Hn).
Qed.

(** X5. Every submission of [createThread] carries the facets that the
    detection run on that very segment gave: the submission of index [i]
    comes with the answer of the detection of index [i], asked on the text
    that is submitted. *)
Theorem createThread_facets_forwarded W (R : Remote W) :
  forall segs s i a res,
    nth_error (post_calls (snd (createThread R segs s))) i = Some (a, res) ->
    nth_error (detect_calls (snd (createThread R segs s))) i
    = Some (post_text a, Resolved (post_facets a)).
Proof.
  intros segs s i a res Hn.
  destruct (createThread R segs s) as [[r s'] tr] eqn:E. simpl in *.
  destruct (createThread_trace W R segs s r s' tr E)
    as (r0 & tr0 & Hrun & Hp & Hd & _).
  rewrite Hp in Hn. rewrite Hd.
  exact (thread_run_facets _ _ _ _ _ Hrun i a res Hn).
Qed.

Lemma createThread_facets_forwarded_witness :
  nth_error (detect_calls (snd Demo.refused_run)) 1
  = Some (js "Reply one", Resolved None).
Proof.
  exact (createThread_facets_forwarded nat Demo.refusing Demo.scenario
           Demo.logged_in 1 Demo.refused_args (Rejected Demo.network_error)
           eq_refl).
Defined.

(** ** Further properties of [login] and [publishContent] *)

Lemma truthy_cons_false (s : jsstring) :
  s <> [] -> negb (truthy s) = false.
Proof. destruct s; [congruence|reflexivity]. Qed.

(** X6. With both credentials set, [login] calls [agent.login] once, with
    those credentials, and shows no notice; it settles as the service
    answers: it resolves and the agent holds the session it was given, or
    it is rejected with the error of the service, which it logs, and the
    agent holds no session any more. *)
Theorem login_with_credentials W (R : Remote W) :
  forall settings s,
    blueskyIdentifier settings <> [] ->
    blueskyAppPassword settings <> [] ->
    let run := login R settings s in
    let answer := snd (remote_login R (world s) (blueskyIdentifier settings)
                         (blueskyAppPassword settings)) in
    login_calls (snd run)
    = [(blueskyIdentifier settings, blueskyAppPassword settings)] /\
    notices (snd run) = [] /\
    fst (fst run) = match answer with
                    | Resolved _ => Resolved tt
                    | Rejected e => Rejected e
                    end /\
    session (agent (snd (fst run)))
    = match answer with
      | Resolved sess => Some sess
      | Rejected _ => None
      end /\
    (forall e, answer = Rejected e ->
               In (EvConsoleError (js "Failed to login:") e) (snd run)).
Proof.
  intros settings s Hi Hp run answer. subst run answer.
  unfold login, try_catch, bind, agent_login, console_error, emit, throw, ret.
  rewrite (truthy_cons_false _ Hi), (truthy_cons_false _ Hp). simpl.
  destruct (remote_login R (world s) _ _) as [w1 [sess|e]]; simpl.
  - repeat split. intros e He. discriminate.
  - repeat split. intros e0 He. inversion He; subst.
    right. left. reflexivity.
Qed.

Lemma login_with_credentials_witness :
  login_calls (snd (login Demo.reliable Demo.credentials Demo.start))
  = [(js "alice.bsky.social", js "abcd-efgh-ijkl-mnop")] /\
  session (agent (snd (fst (login Demo.reliable Demo.credentials Demo.start))))
  = Some {| session_did := js "did:plc:demo" |}.
Proof.
  assert (Hne : forall (c : code_unit) l, c :: l <> []) by (intros; congruence).
  destruct (login_with_credentials nat Demo.reliable Demo.credentials
              Demo.start (Hne _ _) (Hne _ _)) as (Hc & _ & _ & Hs & _).
  split; [exact Hc|exact Hs].
Defined.

Lemma login_missing_run W (R : Remote W) settings s :
  blueskyIdentifier settings = [] \/ blueskyAppPassword settings = [] ->
  login R settings s
  = (Rejected missing_credentials, s,
     [EvNotice not_logged_in_notice;
      EvConsoleError (js "Failed to login:") missing_credentials]).
Proof.
  destruct settings as [ident pass]. simpl. intros [H|H]; subst.
  - reflexivity.
  - destruct ident; reflexivity.
Qed.

Lemma login_quiet W (R : Remote W) settings s r s' tr :
  login R settings s = (r, s', tr) ->
  (blueskyIdentifier settings <> [] /\ blueskyAppPassword settings <> []) \/
  (exists u, r = Resolved u) ->
  notices tr = [].
Proof.
  unfold login, try_catch, bind, agent_login, Notice, console_error, emit,
    throw, ret.
  destruct (negb (truthy (blueskyIdentifier settings))
            || negb (truthy (blueskyAppPassword settings))) eqn:Et; simpl.
  - intros H [[Hi Hp]|[u Hu]].
    + rewrite (truthy_cons_false _ Hi), (truthy_cons_false _ Hp) in Et.
      discriminate.
    + inversion H; subst. discriminate.
  - destruct (remote_login R (world s) _ _) as [w1 [sess|e]]; simpl;
      intros H _; inversion H; subst; reflexivity.
Qed.

Lemma createPost_notices W (R : Remote W) txt s r s' tr :
  createPost R txt s = (r, s', tr) ->
  notices tr = [match r with
                | Resolved _ => posted_notice
                | Rejected e => js "Failed to post: " ++ message e
                end].
Proof.
  unfold createPost, try_catch, bind, get_session, now, createRecord, Notice,
    console_error, emit, throw, ret.
  destruct (session_did_opt (session (agent s))) as [[|c d]|]; simpl.
  - intros H. inversion H; subst. reflexivity.
  - destruct (remote_createRecord R (world s) _) as [w1 [u|e]]; simpl;
      intros H; inversion H; subst; reflexivity.
  - intros H. inversion H; subst. reflexivity.
Qed.

(** How [publish_valid] splits into [login] and what follows it. *)
Lemma publish_valid_inv W (R : Remote W) settings vp s r s' tr :
  publish_valid R settings vp s = (r, s', tr) ->
  exists rl sl tl,
    login R settings s = (rl, sl, tl) /\
    match rl with
    | Rejected e => r = Rejected e /\ s' = sl /\ tr = tl
    | Resolved _ =>
        exists t2,
          match vp with
          | [only] => createPost R only
          | _ => createThread R vp
          end sl = (r, s', t2) /\
          tr = tl ++ t2
    end.
Proof.
  unfold publish_valid, bind. intros H.
  destruct (login R settings s) as [[rl sl] tl].
  exists rl, sl, tl. split; [reflexivity|].
  destruct rl as [u|e].
  - destruct (match vp with
              | [only] => createPost R only
              | _ => createThread R vp
              end sl) as [[r2 s2] t2] eqn:E2.
    inversion H; subst. exists t2. split; reflexivity.
  - inversion H; subst. repeat split.
Qed.

Lemma publish_valid_resolved_notices W (R : Remote W) settings vp s u s' tr :
  vp <> [] ->
  publish_valid R settings vp s = (Resolved u, s', tr) ->
  notices tr = [posted_notice].
Proof.
  intros Hne H.
  destruct (publish_valid_inv W R settings vp s _ _ _ H)
    as (rl & sl & tl & Hl & Hrest).
  destruct rl as [ul|e]; [|destruct Hrest; discriminate].
  destruct Hrest as (t2 & H2 & ->).
  rewrite notices_app.
  rewrite (login_quiet W R settings s _ _ _ Hl)
    by (right; eexists; reflexivity).
  simpl. destruct vp as [|p [|q vp']]; [congruence| |].
  - rewrite (createPost_notices W R p sl _ _ _ H2). reflexivity.
  - assert (Hne2 : p :: q :: vp' <> []) by discriminate.
    pose proof (createThread_notices W R _ sl _ _ _ H2 Hne2) as Hn.
    simpl in Hn. destruct Hn as (tr0 & -> & Hn & _).
    rewrite notices_app, Hn. reflexivity.
Qed.

Lemma publish_valid_thread_rejected_notices W (R : Remote W)
    settings p q rest s e s' tr :
  blueskyIdentifier settings <> [] ->
  blueskyAppPassword settings <> [] ->
  publish_valid R settings (p :: q :: rest) s = (Rejected e, s', tr) ->
  notices tr = [].
Proof.
  intros Hi Hp H.
  destruct (publish_valid_inv W R settings _ s _ _ _ H)
    as (rl & sl & tl & Hl & Hrest).
  assert (Hq : notices tl = [])
    by (apply (login_quiet W R settings s _ _ _ Hl); left; split; assumption).
  destruct rl as [ul|el].
  - destruct Hrest as (t2 & H2 & ->).
    rewrite notices_app, Hq. simpl.
    assert (Hne2 : p :: q :: rest <> []) by discriminate.
    exact (createThread_notices W R _ sl _ _ _ H2 Hne2).
  - destruct Hrest as (_ & _ & ->). exact Hq.
Qed.

Lemma notices_publishContent_trace (t0 t1 : TabState) (tr1 : list Event)
    (r1 : Outcome unit) :
  notices
    (EvDisplay t0
     :: tr1
     ++ match r1 with
        | Resolved _ => []
        | Rejected e => [EvConsoleError (js "Failed to post:") e]
        end
     ++ [EvDisplay t1])
  = notices tr1.
Proof.
  simpl. rewrite !notices_app. destruct r1; simpl; apply app_nil_r.
Qed.

(** X7. With both credentials set and two valid segments or more, a
    publication that fails, at the login, at a detection or at a
    submission, shows the user no notice: [publishContent] swallows the
    error, which goes to the console only, and the tab keeps its
    segments. *)
Theorem publishContent_thread_failure_silent W (R : Remote W) :
  forall settings t s p q rest e s1 tr1,
    isPosting t = false ->
    blueskyIdentifier settings <> [] ->
    blueskyAppPassword settings <> [] ->
    filter_trim (posts t) = p :: q :: rest ->
    publish_valid R settings (filter_trim (posts t)) s
    = (Rejected e, s1, tr1) ->
    let run := publishContent R settings t s in
    notices (snd run) = [] /\
    In (EvConsoleError (js "Failed to post:") e) (snd run) /\
    fst (fst run) = Resolved {| posts := posts t; isPosting := false |}.
Proof.
  intros settings t s p q rest e s1 tr1 Hpost Hi Hp Hv Hpv run. subst run.
  destruct (publishContent_inv W R settings t s)
    as [[_ [Hw|Hw]]|(_ & _ & r2 & s2 & tr2 & Hv2 & Hrun)]; try congruence.
  cbv zeta in Hrun. rewrite Hrun. cbn [fst snd].
  rewrite notices_publishContent_trace.
  rewrite Hpv in Hv2. inversion Hv2; subst. clear Hv2.
  rewrite Hv in Hpv.
  split; [exact (publish_valid_thread_rejected_notices W R _ _ _ _ _ _ _ _
                   Hi Hp Hpv)|].
  split; [|reflexivity].
  right. apply in_or_app. right. left. reflexivity.
Qed.

Lemma publishContent_thread_failure_silent_witness :
  notices
    (snd (publishContent Demo.refusing Demo.credentials Demo.tab_two
            Demo.start)) = [] /\
  fst (fst (publishContent Demo.refusing Demo.credentials Demo.tab_two
              Demo.start))
  = Resolved Demo.tab_two.
Proof.
  assert (Hne : forall (c : code_unit) l, c :: l <> []) by (intros; congruence).
  destruct (publishContent_thread_failure_silent nat Demo.refusing
              Demo.credentials Demo.tab_two Demo.start
              (js "Root post") (js "Reply one") [] Demo.network_error
              {| world := 1; agent := agent Demo.logged_in |}
              (snd (publish_valid Demo.refusing Demo.credentials
                      (filter_trim (posts Demo.tab_two)) Demo.start))
              eq_refl (Hne _ _) (Hne _ _) eq_refl eq_refl)
    as (Hn & _ & Hr).
  split; [exact Hn|exact Hr].
Defined.

(** X8. When a credential is missing, [publishContent] on a tab with a valid
    segment calls nothing on the remote service and submits nothing; the
    one notice shown asks the user to log in, and the tab keeps its
    segments. *)
Theorem publishContent_missing_credentials W (R : Remote W) :
  forall settings t s,
    isPosting t = false ->
    filter_trim (posts t) <> [] ->
    blueskyIdentifier settings = [] \/ blueskyAppPassword settings = [] ->
    let run := publishContent R settings t s in
    remote_calls (snd run) = [] /\
    notices (snd run) = [not_logged_in_notice] /\
    fst (fst run) = Resolved {| posts := posts t; isPosting := false |} /\
    snd (fst run) = s.
Proof.
  intros settings t s Hpost Hne Hmiss run. subst run.
  destruct (publishContent_inv W R settings t s)
    as [[_ [Hw|Hw]]|(_ & _ & r2 & s2 & tr2 & Hv2 & Hrun)]; try congruence.
  unfold publish_valid, bind in Hv2.
  rewrite (login_missing_run W R settings s Hmiss) in Hv2.
  inversion Hv2; subst. clear Hv2.
  cbv zeta in Hrun. rewrite Hrun. cbn [fst snd].
  repeat split.
Qed.

Lemma publishContent_missing_credentials_witness :
  remote_calls
    (snd (publishContent Demo.reliable INITIAL_BLUESKY_SETTINGS Demo.tab_two
            Demo.start)) = [] /\
  fst (fst (publishContent Demo.reliable INITIAL_BLUESKY_SETTINGS Demo.tab_two
              Demo.start))
  = Resolved Demo.tab_two.
Proof.
  assert (Hne : filter_trim (posts Demo.tab_two) <> [])
    by (vm_compute; discriminate).
  destruct (publishContent_missing_credentials nat Demo.reliable
              INITIAL_BLUESKY_SETTINGS Demo.tab_two Demo.start
              eq_refl Hne (or_introl eq_refl)) as (Hc & _ & Hr & _).
  split; [exact Hc|exact Hr].
Defined.

(** X9. While a publication is in progress ([isPosting]), [publishContent]
    does nothing at all.  Otherwise, on a tab with a valid segment, it
    renders the tab first with [isPosting] set and last with [isPosting]
    cleared, and leaves [isPosting] cleared, whether publishing succeeded
    or failed. *)
Theorem publishContent_isPosting_flag W (R : Remote W) :
  forall settings t s,
    (isPosting t = true ->
     publishContent R settings t s = (Resolved t, s, [])) /\
    (isPosting t = false ->
     filter_trim (posts t) <> [] ->
     exists t' s' mid,
       publishContent R settings t s
       = (Resolved t', s',
          EvDisplay {| posts := posts t; isPosting := true |}
          :: mid ++ [EvDisplay t']) /\
       isPosting t' = false).
Proof.
  intros settings t s. split.
  - intros H. unfold publishContent. rewrite H. reflexivity.
  - intros Hp Hne.
    destruct (publishContent_inv W R settings t s)
      as [[_ [Hw|Hw]]|(_ & _ & r1 & s1 & tr1 & _ & Hrun)]; try congruence.
    cbv zeta in Hrun. rewrite Hrun.
    do 3 eexists. split.
    + rewrite app_assoc. reflexivity.
    + reflexivity.
Qed.

Lemma publishContent_isPosting_flag_witness :
  publishContent Demo.reliable Demo.credentials
    {| posts := posts Demo.tab_two; isPosting := true |} Demo.start
  = (Resolved {| posts := posts Demo.tab_two; isPosting := true |},
     Demo.start, []).
Proof.
  exact (proj1 (publishContent_isPosting_flag nat Demo.reliable
                  Demo.credentials
                  {| posts := posts Demo.tab_two; isPosting := true |}
                  Demo.start) eq_refl).
Defined.

(** X10. When publishing succeeds, [publishContent] has submitted every
    valid segment of the tab, in order, has shown the success notice exactly
    once and no other notice, and leaves the tab as a fresh one. *)
Theorem publishContent_success W (R : Remote W) :
  forall settings t s s1 tr1,
    isPosting t = false ->
    filter_trim (posts t) <> [] ->
    publish_valid R settings (filter_trim (posts t)) s
    = (Resolved tt, s1, tr1) ->
    let run := publishContent R settings t s in
    submitted_texts (snd run) = filter_trim (posts t) /\
    notices (snd run) = [posted_notice] /\
    fst (fst run) = Resolved initial_tab.
Proof.
  intros settings t s s1 tr1 Hp Hne Hpv run. subst run.
  destruct (publishContent_prefix W R settings t s) as [_ Hall].
  split; [exact (Hall s1 tr1 Hp Hpv)|].
  destruct (publishContent_inv W R settings t s)
    as [[_ [Hw|Hw]]|(_ & _ & r2 & s2 & tr2 & Hv2 & Hrun)]; try congruence.
  cbv zeta in Hrun. rewrite Hrun. cbn [fst snd].
  rewrite notices_publishContent_trace.
  rewrite Hpv in Hv2. inversion Hv2; subst. clear Hv2.
  split; [|reflexivity].
  exact (publish_valid_resolved_notices W R _ _ _ _ _ _ Hne Hpv).
Qed.

Lemma publishContent_success_witness :
  submitted_texts
    (snd (publishContent Demo.reliable Demo.credentials Demo.tab_blank_middle
            Demo.start))
  = [js "Root post"; js "Reply two"] /\
  notices
    (snd (publishContent Demo.reliable Demo.credentials Demo.tab_blank_middle
            Demo.start))
  = [posted_notice].
Proof.
  assert (Hne : filter_trim (posts Demo.tab_blank_middle) <> [])
    by (vm_compute; discriminate).
  destruct (publishContent_success nat Demo.reliable Demo.credentials
              Demo.tab_blank_middle Demo.start
              {| world := 2; agent := agent Demo.logged_in |}
              (snd (publish_valid Demo.reliable Demo.credentials
                      (filter_trim (posts Demo.tab_blank_middle)) Demo.start))
              eq_refl Hne eq_refl) as (Hs & Hn & _).
  split; [exact Hs|exact Hn].
Defined.

(** ** Further properties of the list of the tab *)

Lemma array_set_length i v a :
  length (array_set i v a) = Nat.max (length a) (S i).
Proof.
  unfold array_set. destruct (i <? length a) eqn:E.
  - apply Nat.ltb_lt in E.
    rewrite length_app, length_firstn. cbn [length]. rewrite length_skipn. lia.
  - apply Nat.ltb_ge in E.
    rewrite !length_app, repeat_length. cbn [length]. lia.
Qed.

Lemma array_set_other i v a j :
  j <> i ->
  nth_error (array_set i v a) j
  = if j <? length a then nth_error a j
    else if j <? i then Some None else None.
Proof.
  intros Hji. unfold array_set. destruct (i <? length a) eqn:E.
  - apply Nat.ltb_lt in E.
    destruct (j <? length a) eqn:Ej.
    + apply Nat.ltb_lt in Ej.
      destruct (Nat.lt_ge_cases j i) as [Hlt|Hge].
      * rewrite nth_error_app1 by (rewrite length_firstn; lia).
        rewrite nth_error_firstn.
        apply Nat.ltb_lt in Hlt. rewrite Hlt. reflexivity.
      * rewrite nth_error_app2 by (rewrite length_firstn; lia).
        rewrite length_firstn.
        replace (j - Nat.min i (length a)) with (S (j - S i)) by lia.
        cbn [nth_error]. rewrite nth_error_skipn. f_equal. lia.
    + apply Nat.ltb_ge in Ej.
      assert (Hji' : (j <? i) = false) by (apply Nat.ltb_ge; lia).
      rewrite Hji'. apply nth_error_None.
      rewrite length_app, length_firstn. cbn [length].
      rewrite length_skipn. lia.
  - apply Nat.ltb_ge in E.
    destruct (j <? length a) eqn:Ej.
    + apply Nat.ltb_lt in Ej. apply nth_error_app1. exact Ej.
    + apply Nat.ltb_ge in Ej.
      rewrite nth_error_app2 by exact Ej.
      destruct (j <? i) eqn:Eji.
      * apply Nat.ltb_lt in Eji.
        rewrite nth_error_app1 by (rewrite repeat_length; lia).
        apply nth_error_repeat. lia.
      * apply Nat.ltb_ge in Eji. apply nth_error_None.
        rewrite length_app, repeat_length. cbn [length]. lia.
Qed.

(** X11. [handlePostChange] writes one slot of the list and no other: the
    slot [index] holds the first [MAX_CHARS] code units of the value; a slot
    that existed keeps what it held; when [index] is past the end the list
    grows to [index + 1] slots, those in between being holes; [isPosting]
    is untouched. *)
Theorem handlePostChange_slots :
  forall index value t,
    let t' := handlePostChange index value t in
    length (posts t') = Nat.max (length (posts t)) (S index) /\
    isPosting t' = isPosting t /\
    forall j,
      nth_error (posts t') j
      = if j =? index then Some (Some (slice0 MAX_CHARS value))
        else if j <? length (posts t) then nth_error (posts t) j
        else if j <? index then Some None
        else None.
Proof.
  intros index value t t'. subst t'. unfold handlePostChange.
  cbn [posts isPosting].
  split; [apply array_set_length|]. split; [reflexivity|].
  intros j. destruct (j =? index) eqn:E.
  - apply Nat.eqb_eq in E. subst j. apply array_set_nth.
  - apply Nat.eqb_neq in E. apply array_set_other. exact E.
Qed.

Lemma splice1_past_end i (a : list (option jsstring)) :
  length a <= i -> splice1 i a = a.
Proof.
  intros H. unfold splice1.
  rewrite firstn_all2 by exact H.
  rewrite skipn_all2 by lia. apply app_nil_r.
Qed.

Lemma splice1_nth i (a : list (option jsstring)) j :
  nth_error (splice1 i a) j
  = if j <? i then nth_error a j else nth_error a (S j).
Proof.
  unfold splice1. destruct (Nat.le_gt_cases (length a) i) as [Hle|Hgt].
  - rewrite firstn_all2 by exact Hle. rewrite skipn_all2 by lia.
    rewrite app_nil_r. destruct (j <? i) eqn:E; [reflexivity|].
    apply Nat.ltb_ge in E.
    transitivity (@None (option jsstring)); [|symmetry];
      apply nth_error_None; lia.
  - destruct (j <? i) eqn:E.
    + apply Nat.ltb_lt in E.
      rewrite nth_error_app1 by (rewrite length_firstn; lia).
      rewrite nth_error_firstn.
      apply Nat.ltb_lt in E. rewrite E. reflexivity.
    + apply Nat.ltb_ge in E.
      rewrite nth_error_app2 by (rewrite length_firstn; lia).
      rewrite length_firstn, nth_error_skipn. f_equal. lia.
Qed.

(** X12. On a list that does not hold exactly one segment, [removePost]
    takes out the slot [index] and nothing else: the slots before it stay,
    those after it move down by one, and the list is one shorter; with an
    [index] past the end it removes nothing. *)
Theorem removePost_splice :
  forall index t,
    length (posts t) <> 1 ->
    let t' := removePost index t in
    isPosting t' = isPosting t /\
    (forall j,
        nth_error (posts t') j
        = if j <? index then nth_error (posts t) j
          else nth_error (posts t) (S j)) /\
    (index < length (posts t) -> length (posts t') = length (posts t) - 1) /\
    (length (posts t) <= index -> posts t' = posts t).
Proof.
  intros index t Hlen t'. subst t'. unfold removePost.
  apply Nat.eqb_neq in Hlen. rewrite Hlen. cbn [posts isPosting].
  split; [reflexivity|]. split; [intros j; apply splice1_nth|].
  split.
  - intros Hlt. unfold splice1.
    rewrite length_app, length_firstn, length_skipn. lia.
  - apply splice1_past_end.
Qed.

Lemma removePost_splice_witness :
  posts (removePost 1 Demo.tab_blank_middle)
  = [Some (js "Root post"); Some (js "Reply two")] /\
  length (posts (removePost 1 Demo.tab_blank_middle)) = 2.
Proof.
  assert (Hlen : length (posts Demo.tab_blank_middle) <> 1)
    by (vm_compute; discriminate).
  destruct (removePost_splice 1 Demo.tab_blank_middle Hlen)
    as (_ & _ & Hl & _).
  split; [reflexivity|].
  rewrite Hl; [reflexivity|vm_compute; lia].
Defined.

(** X13. On a tab whose list is not empty, removing the segment that
    [addPost] has just appended gives the tab back. *)
Theorem addPost_removePost :
  forall t,
    posts t <> [] ->
    removePost (length (posts t)) (addPost t) = t.
Proof.
  intros [a p] Hne. simpl in Hne.
  unfold removePost, addPost. cbn [posts isPosting].
  assert (Hl : (length (a ++ [Some (js "")]) =? 1) = false).
  { apply Nat.eqb_neq. rewrite length_app. simpl.
    destruct a; [congruence|simpl; lia]. }
  rewrite Hl. f_equal. unfold splice1.
  rewrite firstn_app, firstn_all, Nat.sub_diag. cbn [firstn].
  rewrite skipn_all2 by (rewrite length_app; simpl; lia).
  rewrite !app_nil_r. reflexivity.
Qed.

Lemma addPost_removePost_witness :
  removePost 2 (addPost Demo.tab_two) = Demo.tab_two.
Proof.
  assert (Hne : posts Demo.tab_two <> []) by discriminate.
  exact (addPost_removePost Demo.tab_two Hne).
Defined.

(** X14. Handlers keep the index they were registered with.  After
    [removePost] has taken out a segment before the last one, a change
    reported with the index the last segment had does not replace that
    segment: the segment keeps its text, one slot down, and the new text is
    appended as one more segment. *)
Theorem handlePostChange_after_removePost :
  forall index value t,
    2 <= length (posts t) ->
    index < length (posts t) ->
    posts (handlePostChange (length (posts t) - 1) value (removePost index t))
    = splice1 index (posts t) ++ [Some (slice0 MAX_CHARS value)].
Proof.
  intros index value t Hlen Hi.
  unfold removePost.
  assert (Hl : (length (posts t) =? 1) = false) by (apply Nat.eqb_neq; lia).
  rewrite Hl. unfold handlePostChange. cbn [posts].
  assert (Hs : length (splice1 index (posts t)) = length (posts t) - 1).
  { unfold splice1. rewrite length_app, length_firstn, length_skipn. lia. }
  unfold array_set. rewrite Hs, Nat.ltb_irrefl, Nat.sub_diag. reflexivity.
Qed.

(** Three segments, the second removed, then an edit of the third through
    its handler: the third keeps its text and the edit is a fourth
    segment. *)
Lemma handlePostChange_after_removePost_witness :
  posts (handlePostChange 2 (js "Edited")
           (removePost 1 Demo.tab_blank_middle))
  = [Some (js "Root post"); Some (js "Reply two"); Some (js "Edited")].
Proof.
  assert (H2 : 2 <= length (posts Demo.tab_blank_middle))
    by (vm_compute; lia).
  assert (H1 : 1 < length (posts Demo.tab_blank_middle))
    by (vm_compute; lia).
  exact (handlePostChange_after_removePost 1 (js "Edited")
           Demo.tab_blank_middle H2 H1).
Defined.

Lemma hasValidFirstPost_addThreadBtn (a : list (option jsstring)) :
  hasValidFirstPost a = negb (addThreadBtn_disabled a).
Proof.
  destruct a as [|[p|] r]; simpl; try reflexivity.
  destruct (trim p); reflexivity.
Qed.

Lemma hasValidFirstPost_hasAnyContent (a : list (option jsstring)) :
  hasValidFirstPost a = true -> hasAnyContent a = true.
Proof.
  destruct a as [|[p|] r]; simpl; try discriminate.
  destruct (trim p); simpl; [discriminate|reflexivity].
Qed.

(** X15. The two buttons depend on the first slot of the list alone: both
    are enabled exactly when it holds a text that is not blank (the Post
    button as [display] renders it also needs that no publication is in
    progress); whether some segment has content never changes the result.
    When they are enabled, the first valid segment, the root of what
    [publishContent] publishes, is the first segment of the tab. *)
Theorem buttons_follow_first_segment :
  forall t,
    change_postButton_disabled (posts t) = addThreadBtn_disabled (posts t) /\
    postButton_disabled t = isPosting t || addThreadBtn_disabled (posts t) /\
    (addThreadBtn_disabled (posts t) = false <->
     exists p rest, posts t = Some p :: rest /\ ~ blank p) /\
    (forall p rest,
        posts t = Some p :: rest -> ~ blank p ->
        filter_trim (posts t) = p :: filter_trim rest).
Proof.
  intros t.
  assert (Hb : negb (hasValidFirstPost (posts t))
               || negb (hasAnyContent (posts t))
               = addThreadBtn_disabled (posts t)).
  { rewrite hasValidFirstPost_addThreadBtn, negb_involutive.
    destruct (addThreadBtn_disabled (posts t)) eqn:E; [reflexivity|].
    rewrite hasValidFirstPost_hasAnyContent; [reflexivity|].
    rewrite hasValidFirstPost_addThreadBtn, E. reflexivity. }
  split; [exact Hb|].
  split.
  { unfold postButton_disabled. rewrite <- orb_assoc, Hb. reflexivity. }
  split.
  - split.
    + intros H. destruct (posts t) as [|[p|] r]; simpl in H; try discriminate.
      exists p, r. split; [reflexivity|].
      apply truthy_trim. apply negb_false_iff. exact H.
    + intros (p & r & -> & Hnb). simpl.
      apply negb_false_iff. apply truthy_trim. exact Hnb.
  - intros p r -> Hnb. simpl.
    apply truthy_trim in Hnb. rewrite Hnb. reflexivity.
Qed.

Lemma buttons_follow_first_segment_witness :
  filter_trim (posts Demo.tab_blank_middle)
  = js "Root post"
    :: filter_trim [Some (js "   "); Some (js "Reply two")].
Proof.
  refine (proj2 (proj2 (proj2 (buttons_follow_first_segment
                                 Demo.tab_blank_middle)))
            (js "Root post") [Some (js "   "); Some (js "Reply two")]
            eq_refl _).
  intros Hb. apply trim_nil_blank in Hb. vm_compute in Hb. discriminate.
Defined.

(** ** The command that posts the selected text *)

(** How [createBlueskyPost] runs on its own bot: [login], then [createPost]
    when the login resolved, any rejection logged and handed on. *)
Lemma createBlueskyPost_inv W (R : Remote W) settings txt s :
  let bot := {| world := world s; agent := {| session := None |} |} in
  let label := js "Error posting to Bluesky:" in
  exists rl sl tl,
    login R settings bot = (rl, sl, tl) /\
    match rl with
    | Rejected e =>
        createBlueskyPost R settings txt s
        = (Rejected e, {| world := world sl; agent := agent s |},
           tl ++ [EvConsoleError label e])
    | Resolved _ =>
        exists rc sc tc,
          createPost R txt sl = (rc, sc, tc) /\
          createBlueskyPost R settings txt s
          = (rc, {| world := world sc; agent := agent s |},
             tl ++ tc
             ++ match rc with
                | Resolved _ => []
                | Rejected e => [EvConsoleError label e]
                end)
    end.
Proof.
  intros bot label. subst bot label.
  unfold createBlueskyPost, try_catch, bind, console_error, emit, throw.
  cbv beta.
  destruct (login R settings _) as [[rl sl] tl].
  exists rl, sl, tl. split; [reflexivity|].
  destruct rl as [u|e].
  - destruct (createPost R txt sl) as [[rc sc] tc].
    exists rc, sc, tc. split; [reflexivity|].
    destruct rc as [uc|ec]; cbn [app].
    + rewrite app_nil_r. reflexivity.
    + rewrite app_assoc. reflexivity.
  - cbn [app]. reflexivity.
Qed.

(** X16. The command never rejects and leaves the session of the tab's bot
    alone; with an empty selection it only shows the notice asking for a
    selection, without any call on the remote service. *)
Theorem postSelection_never_rejects W (R : Remote W) :
  forall settings selectedText s,
    let run := postSelection R settings selectedText s in
    fst (fst run) = Resolved tt /\
    agent (snd (fst run)) = agent s /\
    (selectedText = [] ->
     snd run = [EvNotice select_notice] /\ snd (fst run) = s).
Proof.
  intros settings sel s run. subst run. unfold postSelection.
  destruct sel as [|c sel]; simpl.
  - repeat split.
  - unfold try_catch, bind.
    destruct (createBlueskyPost_inv W R settings (c :: sel) s)
      as (rl & sl & tl & _ & Hrest).
    destruct rl as [u|e].
    + destruct Hrest as (rc & sc & tc & _ & ->).
      destruct rc as [[]|ec]; simpl; repeat split; intros; discriminate.
    + rewrite Hrest. simpl. repeat split; intros; discriminate.
Qed.

Lemma postSelection_never_rejects_witness :
  snd (postSelection Demo.reliable Demo.credentials [] Demo.start)
  = [EvNotice select_notice] /\
  snd (fst (postSelection Demo.reliable Demo.credentials [] Demo.start))
  = Demo.start.
Proof.
  exact (proj2 (proj2 (postSelection_never_rejects nat Demo.reliable
                         Demo.credentials [] Demo.start)) eq_refl).
Defined.

(** X17. With a selection and a login that resolves, the user is told the
    outcome twice: [createPost] shows its notice, of success or of failure,
    and the command shows the same notice again.  At most the selection is
    submitted, unchanged. *)
Theorem postSelection_notice_twice W (R : Remote W) :
  forall settings selectedText s sl tl,
    selectedText <> [] ->
    login R settings {| world := world s; agent := {| session := None |} |}
    = (Resolved tt, sl, tl) ->
    let run := postSelection R settings selectedText s in
    let n := match fst (fst (createPost R selectedText sl)) with
             | Resolved _ => posted_notice
             | Rejected e => js "Failed to post: " ++ message e
             end in
    notices (snd run) = [n; n] /\
    (submitted_texts (snd run) = [] \/
     submitted_texts (snd run) = [selectedText]).
Proof.
  intros settings sel s sl tl Hne Hl run n. subst run n.
  unfold postSelection.
  rewrite (truthy_cons_false _ Hne). unfold try_catch, bind.
  destruct (createBlueskyPost_inv W R settings sel s)
    as (rl & sl' & tl' & Hl' & Hrest).
  cbv zeta in Hl'. rewrite Hl in Hl'. inversion Hl'; subst. clear Hl'.
  destruct Hrest as (rc & sc & tc & Hc & ->).
  pose proof (login_quiet W R settings _ _ _ _ Hl
                (or_intror (ex_intro _ tt eq_refl))) as Hq.
  destruct (login_trace W R settings _ _ _ _ Hl) as (Hsub & _ & _).
  pose proof (createPost_notices W R sel sl' _ _ _ Hc) as Hn.
  destruct (createPost_trace W R sel sl' _ _ _ Hc) as (_ & Hor & _).
  rewrite Hc. cbn [fst snd].
  destruct rc as [[]|ec]; unfold Notice, emit; cbn [fst snd];
    rewrite !notices_app, !submitted_texts_app, Hq, Hsub, Hn; simpl;
    rewrite !app_nil_r; (split; [reflexivity|exact Hor]).
Qed.

Lemma postSelection_notice_twice_witness :
  notices
    (snd (postSelection Demo.reliable Demo.credentials (js "Hello world")
            Demo.start))
  = [posted_notice; posted_notice].
Proof.
  assert (Hne : js "Hello world" <> []) by discriminate.
  exact (proj1 (postSelection_notice_twice nat Demo.reliable Demo.credentials
                  (js "Hello world") Demo.start Demo.logged_in
                  [EvAgentLogin (blueskyIdentifier Demo.credentials)
                     (blueskyAppPassword Demo.credentials)
                     (Resolved {| session_did := js "did:plc:demo" |})]
                  Hne eq_refl)).
Defined.

(** X18. With a selection and a login that is rejected, the command submits
    nothing and, after whatever [login] showed, shows one notice with the
    message of the rejection. *)
Theorem postSelection_login_rejected W (R : Remote W) :
  forall settings selectedText s e sl tl,
    selectedText <> [] ->
    login R settings {| world := world s; agent := {| session := None |} |}
    = (Rejected e, sl, tl) ->
    let run := postSelection R settings selectedText s in
    notices (snd run) = notices tl ++ [js "Failed to post: " ++ message e] /\
    submitted_texts (snd run) = [].
Proof.
  intros settings sel s e sl tl Hne Hl run. subst run.
  unfold postSelection.
  rewrite (truthy_cons_false _ Hne). unfold try_catch, bind.
  destruct (createBlueskyPost_inv W R settings sel s)
    as (rl & sl' & tl' & Hl' & Hrest).
  cbv zeta in Hl'. rewrite Hl in Hl'. inversion Hl'; subst. clear Hl'.
  rewrite Hrest. unfold Notice, emit. cbn [fst snd].
  destruct (login_trace W R settings _ _ _ _ Hl) as (Hsub & _ & _).
  rewrite !notices_app, !submitted_texts_app, Hsub. simpl.
  rewrite app_nil_r. split; reflexivity.
Qed.

(** On the settings of a fresh install: the notice of [login], then the
    notice of the command. *)
Lemma postSelection_login_rejected_witness :
  notices
    (snd (postSelection Demo.reliable INITIAL_BLUESKY_SETTINGS
            (js "Hello world") Demo.start))
  = [not_logged_in_notice;
     js "Failed to post: " ++ message missing_credentials].
Proof.
  assert (Hne : js "Hello world" <> []) by discriminate.
  exact (proj1 (postSelection_login_rejected nat Demo.reliable
                  INITIAL_BLUESKY_SETTINGS (js "Hello world") Demo.start
                  missing_credentials Demo.start
                  [EvNotice not_logged_in_notice;
                   EvConsoleError (js "Failed to login:") missing_credentials]
                  Hne eq_refl)).
Defined.

(** ** The settings *)

(** X19. What [saveSettings] stores, [loadSettings] gives back; and after a
    change made in the settings tab, loading gives the settings as changed,
    the other field as it was. *)
Theorem loadSettings_saveSettings :
  forall settings,
    loadSettings (saveSettings settings) = settings /\
    (forall value,
        let '(settings', stored) := onChange_identifier value settings in
        loadSettings stored = settings' /\
        blueskyIdentifier settings' = value /\
        blueskyAppPassword settings' = blueskyAppPassword settings) /\
    (forall value,
        let '(settings', stored) := onChange_appPassword value settings in
        loadSettings stored = settings' /\
        blueskyAppPassword settings' = value /\
        blueskyIdentifier settings' = blueskyIdentifier settings).
Proof.
  intros [ident pass]. repeat split.
Qed.

(** X20. [loadSettings] gives each field as it was saved and the empty
    string for a field that was not: both fields are empty when nothing was
    saved, and a field missing from what was saved is the one left empty,
    the other being as saved.  In each of these cases [login] on the
    settings loaded is rejected for missing credentials without any call on
    the remote service. *)
Theorem loadSettings_missing_key W (R : Remote W) :
  forall data s,
    (data = None ->
     loadSettings data
     = {| blueskyIdentifier := js ""; blueskyAppPassword := js "" |}) /\
    (forall d,
        data = Some d ->
        blueskyIdentifier (loadSettings data)
        = match stored_blueskyIdentifier d with
          | Some v => v
          | None => js ""
          end /\
        blueskyAppPassword (loadSettings data)
        = match stored_blueskyAppPassword d with
          | Some v => v
          | None => js ""
          end) /\
    (data = None \/
     (exists d, data = Some d /\
                (stored_blueskyIdentifier d = None \/
                 stored_blueskyAppPassword d = None)) ->
     fst (fst (login R (loadSettings data) s)) = Rejected missing_credentials /\
     snd (fst (login R (loadSettings data) s)) = s /\
     remote_calls (snd (login R (loadSettings data) s)) = []).
Proof.
  intros data s. split; [intros ->; reflexivity|].
  split; [intros d ->; split; reflexivity|].
  intros H.
  assert (Hm : blueskyIdentifier (loadSettings data) = [] \/
               blueskyAppPassword (loadSettings data) = []).
  { destruct H as [->|(d & -> & [Hd|Hd])]; simpl.
    - left; reflexivity.
    - left. rewrite Hd. reflexivity.
    - right. rewrite Hd. reflexivity. }
  rewrite (login_missing_run W R (loadSettings data) s Hm).
  split; [reflexivity|]. split; reflexivity.
Qed.

(** An identifier saved without a password: the identifier is loaded, the
    password is empty, and [login] is rejected. *)
Lemma loadSettings_missing_key_witness :
  loadSettings
    (Some {| stored_blueskyIdentifier := Some (js "alice.bsky.social");
             stored_blueskyAppPassword := None |})
  = {| blueskyIdentifier := js "alice.bsky.social";
       blueskyAppPassword := js "" |} /\
  fst (fst (login Demo.reliable
              (loadSettings
                 (Some {| stored_blueskyIdentifier :=
                            Some (js "alice.bsky.social");
                          stored_blueskyAppPassword := None |}))
              Demo.start))
  = Rejected missing_credentials.
Proof.
  split; [reflexivity|].
  refine (proj1 (proj2 (proj2 (loadSettings_missing_key nat Demo.reliable
                                 (Some {| stored_blueskyIdentifier :=
                                            Some (js "alice.bsky.social");
                                          stored_blueskyAppPassword := None |})
                                 Demo.start)) _)).
  right. eexists. split; [reflexivity|]. right. reflexivity.
Defined.

(** ** File-system access *)

(** X21. [withFileSystem] never rejects: it gives what the operation
    resolves to, with the trace of the operation, and when the operation is
    rejected it gives the fallback, after logging the error. *)
Theorem withFileSystem_never_rejects D T :
  forall (fileSystem : FileSystem.FileSystemOperations D)
         (operation : FileSystem.FileSystemOperations D -> FileSystem.FsM D T)
         (fallback : T) (d : D),
    let run := FileSystem.withFileSystem fileSystem operation fallback d in
    match operation fileSystem d with
    | (Resolved v, d', tr) => run = (Resolved v, d', tr)
    | (Rejected e, d', tr) =>
        run = (Resolved fallback, d',
               tr ++ [FileSystem.FsConsoleError
                        (js "Filesystem operation failed:") e])
    end /\
    exists v, fst (fst run) = Resolved v.
Proof.
  intros fileSystem operation fallback d run. subst run.
  unfold FileSystem.withFileSystem.
  destruct (operation fileSystem d) as [[[v|e] d'] tr]; split;
    try reflexivity; eexists; reflexivity.
Qed.

(** X22. On mobile nothing reaches the disk: [isWritable] answers [false],
    and reading or writing through [withFileSystem] gives the fallback
    without any call on the disk, which stays as it was. *)
Theorem mobile_never_touches_disk D :
  forall (fs : FileSystem.NodeFs D) (path data fallback : jsstring) (d : D),
    let mobile := FileSystem.fileSystem_of false fs in
    FileSystem.isWritable mobile d = (Resolved false, d, []) /\
    (let run := FileSystem.withFileSystem mobile
                  (fun f => FileSystem.readFile f path) fallback d in
     fst run = (Resolved fallback, d) /\
     FileSystem.disk_calls (snd run) = []) /\
    (let run := FileSystem.withFileSystem mobile
                  (fun f => FileSystem.writeFile f path data) tt d in
     fst run = (Resolved tt, d) /\
     FileSystem.disk_calls (snd run) = []).
Proof.
  intros fs path data fallback d mobile. repeat split.
Qed.

(** X23. On either platform [isWritable] never rejects.  It answers [true]
    only on the desktop, when the access check of the disk is accepted; on
    the desktop it asks the disk exactly once, on mobile not at all. *)
Theorem isWritable_never_rejects D :
  forall (isDesktop : bool) (fs : FileSystem.NodeFs D) (d : D),
    let run :=
      FileSystem.isWritable (FileSystem.fileSystem_of isDesktop fs) d in
    exists b,
      fst (fst run) = Resolved b /\
      (b = true <->
       isDesktop = true /\
       exists u, snd (FileSystem.fs_access fs d) = Resolved u) /\
      FileSystem.disk_calls (snd run)
      = if isDesktop
        then [FileSystem.FsAccess (snd (FileSystem.fs_access fs d))]
        else [].
Proof.
  intros isDesktop fs d run. subst run.
  destruct isDesktop; simpl.
  - destruct (FileSystem.fs_access fs d) as [d' [u|e]]; simpl.
    + exists true. split; [reflexivity|]. split; [|reflexivity].
      split; [intros _; split; [reflexivity|exists u; reflexivity]|reflexivity].
    + exists false. split; [reflexivity|]. split; [|reflexivity].
      split; [discriminate|]. intros [_ [u Hu]]. discriminate.
  - exists false. split; [reflexivity|]. split; [|reflexivity].
    split; [discriminate|]. intros [H _]. discriminate.
Qed.

(** ** More on the thread and on when [publishContent] acts *)

(** X24. In every run of [createThread], complete or cut short, on one
    segment or many: each submission carries the text of the segment of its
    index; the first has no reply; every later one, accepted or refused,
    replies to the reference of the first submission as root and to the
    reference of the submission before it as parent. *)
Theorem createThread_chain_every_run W (R : Remote W) :
  forall segs s,
    let calls := post_calls (snd (createThread R segs s)) in
    (forall i a res,
        nth_error calls i = Some (a, res) ->
        nth_error segs i = Some (post_text a)) /\
    (forall a res, nth_error calls 0 = Some (a, res) -> post_reply a = None) /\
    (forall i a res,
        nth_error calls (S i) = Some (a, res) ->
        exists a0 ref0 ai refi,
          nth_error calls 0 = Some (a0, Resolved ref0) /\
          nth_error calls i = Some (ai, Resolved refi) /\
          post_reply a = Some {| root := Some ref0; parent := refi |}).
Proof.
  intros segs s calls. subst calls.
  destruct (createThread R segs s) as [[r s'] tr] eqn:E. cbn [snd].
  destruct (createThread_trace W R segs s r s' tr E)
    as (r0 & tr0 & Hrun & Hp & _ & _).
  rewrite Hp. split; [|exact (thread_run_chain_from_start _ _ _ Hrun)].
  intros i a res Hn.
  destruct (thread_run_prefix _ _ _ _ _ Hrun) as [rest Hrest].
  rewrite (submitted_texts_post_calls _
             (thread_run_no_createRecord _ _ _ _ _ Hrun)) in Hrest.
  rewrite Hrest.
  rewrite nth_error_app1.
  - rewrite nth_error_map, Hn. reflexivity.
  - rewrite length_map. apply nth_error_Some. rewrite Hn. discriminate.
Qed.

(** The refused submission of the scenario was already linked to the
    root. *)
Lemma createThread_chain_every_run_witness :
  exists a0,
    nth_error (post_calls (snd Demo.refused_run)) 0
    = Some (a0, Resolved (Demo.ref_of 0)).
Proof.
  destruct (createThread_chain_every_run nat Demo.refusing Demo.scenario
              Demo.logged_in) as (_ & _ & H).
  destruct (H 0 Demo.refused_args (Rejected Demo.network_error) eq_refl)
    as (a0 & ref0 & ai & refi & H0 & _ & Hr).
  exists a0. cbn [Demo.refused_args post_reply] in Hr.
  inversion Hr; subst. exact H0.
Defined.

Lemma login_with_credentials_run W (R : Remote W) settings s :
  blueskyIdentifier settings <> [] ->
  blueskyAppPassword settings <> [] ->
  exists w1 res,
    remote_login R (world s) (blueskyIdentifier settings)
      (blueskyAppPassword settings) = (w1, res) /\
    login R settings s
    = match res with
      | Resolved sess =>
          (Resolved tt,
           {| world := w1; agent := {| session := Some sess |} |},
           [EvAgentLogin (blueskyIdentifier settings)
              (blueskyAppPassword settings) res])
      | Rejected e =>
          (Rejected e, {| world := w1; agent := {| session := None |} |},
           [EvAgentLogin (blueskyIdentifier settings)
              (blueskyAppPassword settings) res;
            EvConsoleError (js "Failed to login:") e])
      end.
Proof.
  intros Hi Hp.
  unfold login, try_catch, bind, agent_login, console_error, emit, throw, ret.
  rewrite (truthy_cons_false _ Hi), (truthy_cons_false _ Hp). simpl.
  destruct (remote_login R (world s) _ _) as [w1 [sess|e]]; simpl;
    do 2 eexists; split; reflexivity.
Qed.

(** X25. With both credentials set, every publication from the tab starts
    with a call of [agent.login] with them, whether the agent already has a
    session or not; when that call is refused it is the only call made on
    the remote service. *)
Theorem publishContent_login_first W (R : Remote W) :
  forall settings t s,
    isPosting t = false ->
    filter_trim (posts t) <> [] ->
    blueskyIdentifier settings <> [] ->
    blueskyAppPassword settings <> [] ->
    exists res rest,
      remote_calls (snd (publishContent R settings t s))
      = EvAgentLogin (blueskyIdentifier settings)
          (blueskyAppPassword settings) res :: rest /\
      res = snd (remote_login R (world s) (blueskyIdentifier settings)
                   (blueskyAppPassword settings)) /\
      (forall e, res = Rejected e -> rest = []).
Proof.
  intros settings t s Hpost Hne Hi Hp.
  destruct (publishContent_inv W R settings t s)
    as [[_ [Hw|Hw]]|(_ & _ & r1 & s1 & tr1 & Hpv & Hrun)]; try congruence.
  cbv zeta in Hrun. rewrite Hrun. cbn [snd]. clear Hrun.
  destruct (publish_valid_inv W R settings _ s _ _ _ Hpv)
    as (rl & sl & tl & Hl & Hrest).
  destruct (login_with_credentials_run W R settings s Hi Hp)
    as (w1 & res & Hans & Hlrun).
  rewrite Hlrun in Hl. rewrite Hans. cbn [snd].
  assert (Hmid : remote_calls
            (match r1 with
             | Resolved _ => []
             | Rejected e => [EvConsoleError (js "Failed to post:") e]
             end ++ [EvDisplay
                       {| posts := match r1 with
                                   | Resolved _ => [Some (js "")]
                                   | Rejected _ => posts t
                                   end;
                          isPosting := false |}]) = [])
    by (destruct r1; reflexivity).
  unfold remote_calls in *. cbn [filter is_remote_call].
  rewrite filter_app, Hmid, app_nil_r.
  destruct res as [sess|e].
  - inversion Hl; subst. destruct Hrest as (t2 & _ & ->).
    cbn [app filter is_remote_call].
    do 2 eexists. split; [reflexivity|]. split; [reflexivity|].
    intros e He. discriminate.
  - inversion Hl; subst. destruct Hrest as (_ & _ & ->).
    cbn [filter is_remote_call].
    do 2 eexists. split; [reflexivity|]. split; [reflexivity|].
    intros e0 _. reflexivity.
Qed.

(** A tab whose bot is already logged in logs in again. *)
Lemma publishContent_login_first_witness :
  exists rest,
    remote_calls
      (snd (publishContent Demo.reliable Demo.credentials Demo.tab_hello
              Demo.logged_in))
    = EvAgentLogin (js "alice.bsky.social") (js "abcd-efgh-ijkl-mnop")
        (Resolved {| session_did := js "did:plc:demo" |}) :: rest.
Proof.
  assert (Hne : forall (c : code_unit) l, c :: l <> []) by (intros; congruence).
  assert (Hv : filter_trim (posts Demo.tab_hello) <> [])
    by (vm_compute; discriminate).
  destruct (publishContent_login_first nat Demo.reliable Demo.credentials
              Demo.tab_hello Demo.logged_in eq_refl Hv (Hne _ _) (Hne _ _))
    as (res & rest & Hc & Hres & _).
  exists rest. rewrite Hc, Hres. reflexivity.
Defined.

Lemma hasAnyContent_filter_trim (a : list (option jsstring)) :
  hasAnyContent a = true <-> filter_trim a <> [].
Proof.
  unfold hasAnyContent. induction a as [|[p|] r IH]; simpl.
  - split; [discriminate|congruence].
  - destruct (truthy (trim p)); simpl.
    + split; [discriminate|reflexivity].
    + exact IH.
  - exact IH.
Qed.

(** X26. [publishContent] acts exactly when no publication is in progress
    and some segment of the tab has content, whatever the first segment
    holds: its guard is weaker than the one that enables the Post button. *)
Theorem publishContent_acts_iff W (R : Remote W) :
  forall settings t s,
    snd (publishContent R settings t s) <> [] <->
    isPosting t = false /\ hasAnyContent (posts t) = true.
Proof.
  intros settings t s. rewrite hasAnyContent_filter_trim.
  destruct (publishContent_inv W R settings t s)
    as [[Hrun Hwhy]|(Hp & Hne & r1 & s1 & tr1 & _ & Hrun)].
  - rewrite Hrun. cbn [snd]. split; [congruence|].
    intros [Hp Hne]. destruct Hwhy; congruence.
  - cbv zeta in Hrun. rewrite Hrun. cbn [snd].
    split; [intros _; split; assumption|discriminate].
Qed.

(** A first segment left blank, with content in the second: the Post
    button is disabled, yet [publishContent] publishes the second. *)
Lemma publishContent_acts_iff_witness :
  postButton_disabled
    {| posts := [Some (js ""); Some (js "Reply one")]; isPosting := false |}
  = true /\
  snd (publishContent Demo.reliable Demo.credentials
         {| posts := [Some (js ""); Some (js "Reply one")];
            isPosting := false |} Demo.start) <> [].
Proof.
  split; [reflexivity|].
  apply (proj2 (publishContent_acts_iff nat Demo.reliable Demo.credentials
                  {| posts := [Some (js ""); Some (js "Reply one")];
                     isPosting := false |} Demo.start)).
  split; reflexivity.
Defined.
